(** * Sentiment scoring and ensemble pipeline

    A shallow embedding of [src/analyzers]: the platform-aware text
    preprocessor, the VADER label rule, the RoBERTa batch loop and the
    ensemble resolver of [SentimentPipeline]. *)

From Stdlib Require Import ZArith List Ascii String Bool Lia.
From Stdlib Require Import Floats.PrimFloat Floats.FloatOps Floats.FloatAxioms Floats.SpecFloat.
From stdpp Require Import base option list strings gmap fin_maps.

#[local] Set Warnings "-inexact-float".

(** ** Python floats

    A Python [float] is an IEEE 754 binary64 number: Rocq's primitive
    [float].  [>=] and [<=] are the IEEE comparisons, false on NaN. *)

Module PyFloat.

Definition ge (a b : float) : bool := PrimFloat.leb b a.
Definition le (a b : float) : bool := PrimFloat.leb a b.
Definition is_nan (a : float) : bool := PrimFloat.is_nan a.

End PyFloat.



(** ** Python values

    The cells the pipeline reads and writes: [None], a float64 (NaN is
    how pandas stores a missing value) or a [str].  A text is a Python
    [str] over the code points below 256, one [ascii] each. *)

Inductive pyval :=
| PyNone
| PyFloat (f : float)
| PyStr (s : string).

Definition text := list ascii.

Definition to_text (s : string) : text := list_ascii_of_string s.
Definition of_text (t : text) : string := string_of_list_ascii t.

Definition code (c : ascii) : N := N_of_ascii c.

Definition between (lo hi : N) (c : ascii) : bool :=
  (lo <=? code c)%N && (code c <=? hi)%N.

(** [str.isspace] on one character, which is also the class [\s] of [re]:
    tab to carriage return, the four separators U+001C..U+001F, space,
    U+0085 and U+00A0. *)
Definition is_space (c : ascii) : bool :=
  between 9 13 c || between 28 32 c || (code c =? 133)%N || (code c =? 160)%N.

(** The class [\w] of [re] on a [str] pattern: alphanumeric
    ([str.isalnum]) or underscore. *)
Definition is_word (c : ascii) : bool :=
  between 48 57 c || between 65 90 c || (code c =? 95)%N || between 97 122 c
  || (code c =? 170)%N || between 178 179 c || (code c =? 181)%N
  || between 185 186 c || between 188 190 c || between 192 214 c
  || between 216 246 c || between 248 255 c.

(** The class [\S]. *)
Definition is_nonspace (c : ascii) : bool := negb (is_space c).

(** Lower case of an ASCII letter, the folding [re.IGNORECASE] applies to the
    ASCII literals of the patterns below. *)
Definition lower (c : ascii) : ascii :=
  if between 65 90 c then ascii_of_N (code c + 32) else c.

(** [str.strip()] with no argument. *)
Fixpoint lstrip (t : text) : text :=
  match t with
  | c :: t' => if is_space c then lstrip t' else t
  | [] => []
  end.

Definition rstrip (t : text) : text := rev (lstrip (rev t)).

Definition strip (t : text) : text := rstrip (lstrip t).

(** ** The fragment of [re] the preprocessor uses

    Python's [re] is a backtracking matcher: alternatives are tried left to
    right, [+] and [?] are greedy, and [sub] replaces the leftmost
    non-overlapping matches.  All quantifiers of the source patterns are
    on one-character atoms. *)

Module Re.

Inductive regex :=
| Eps
| Lit (c : ascii)
| Class (p : ascii -> bool)
| Bol
| Cat (r1 r2 : regex)
| Alt (r1 r2 : regex)
| Plus (p : ascii -> bool)
| Opt (r : regex)
| Group (r : regex).

(** A position of the matcher: whether it is the start of the string, what
    group 1 holds, and the input left. *)
Record mstate := MState { at_bos : bool; grp1 : option text; input : text }.

Definition chr_eq (icase : bool) (c x : ascii) : bool :=
  if icase then Ascii.eqb (lower c) (lower x) else Ascii.eqb c x.

Fixpoint plus_loop (p : ascii -> bool) (g : option text) (s : text)
    (k : mstate -> option mstate) : option mstate :=
  match s with
  | c :: s' =>
      if p c then
        match plus_loop p g s' k with
        | Some r => Some r
        | None => k (MState false g s')
        end
      else None
  | [] => None
  end.

Fixpoint run (icase : bool) (r : regex) (st : mstate)
    (k : mstate -> option mstate) : option mstate :=
  match r with
  | Eps => k st
  | Lit c =>
      match input st with
      | x :: s' => if chr_eq icase c x then k (MState false (grp1 st) s') else None
      | [] => None
      end
  | Class p =>
      match input st with
      | x :: s' => if p x then k (MState false (grp1 st) s') else None
      | [] => None
      end
  | Bol => if at_bos st then k st else None
  | Cat r1 r2 => run icase r1 st (fun st' => run icase r2 st' k)
  | Alt r1 r2 =>
      match run icase r1 st k with
      | Some m => Some m
      | None => run icase r2 st k
      end
  | Plus p => plus_loop p (grp1 st) (input st) k
  | Opt r' =>
      match run icase r' st k with
      | Some m => Some m
      | None => k st
      end
  | Group r' =>
      run icase r' st (fun st' =>
        k (MState (at_bos st')
             (Some (take (length (input st) - length (input st')) (input st)))
             (input st')))
  end.

(** One match attempt at the current position. *)
Definition match_at (icase : bool) (r : regex) (bos : bool) (s : text) : option mstate :=
  run icase r (MState bos None s) Some.

(** A replacement template: literal text and the reference [\1]. *)
Inductive ritem := RLit (t : text) | RGroup1.

Definition expand (tmpl : list ritem) (g : option text) : text :=
  concat (map (fun i => match i with RLit t => t | RGroup1 => default [] g end) tmpl).

(** [pattern.sub(repl, s)]: scan left to right; on a match emit the
    replacement and go on after it, otherwise copy one character. *)
Fixpoint sub_loop (fuel : nat) (icase : bool) (r : regex) (tmpl : list ritem)
    (bos : bool) (s : text) : text :=
  match fuel with
  | O => s
  | S n =>
      match match_at icase r bos s with
      | Some m =>
          if (length (input m) <? length s)%nat
          then expand tmpl (grp1 m) ++ sub_loop n icase r tmpl false (input m)
          else match s with
               | [] => expand tmpl (grp1 m)
               | c :: s' => expand tmpl (grp1 m) ++ c :: sub_loop n icase r tmpl false s'
               end
      | None =>
          match s with
          | [] => []
          | c :: s' => c :: sub_loop n icase r tmpl false s'
          end
      end
  end.

Definition sub_text (icase : bool) (r : regex) (tmpl : list ritem) (s : text) : text :=
  sub_loop (S (length s)) icase r tmpl true s.

Definition sub (icase : bool) (r : regex) (repl : string) (s : string) : string :=
  of_text (sub_text icase r [RLit (to_text repl)] (to_text s)).

(** A literal word, one [Lit] per character. *)
Fixpoint word (t : text) : regex :=
  match t with
  | [] => Eps
  | [c] => Lit c
  | c :: t' => Cat (Lit c) (word t')
  end.

End Re.

(** ** preprocessor.py *)

Module TextPreprocessor.

Import Re.

Definition one_of (cs : string) (c : ascii) : bool :=
  existsb (Ascii.eqb c) (to_text cs).

(** [https?://\S+|www\.\S+] *)
Definition _URL_RE : regex :=
  Alt (Cat (word (to_text "http")) (Cat (Opt (Lit "s")) (Cat (word (to_text "://")) (Plus is_nonspace))))
      (Cat (word (to_text "www")) (Cat (Lit ".") (Plus is_nonspace))).

(** [@\w+] *)
Definition _MENTION_RE : regex := Cat (Lit "@") (Plus is_word).

(** [#(\w+)] *)
Definition _HASHTAG_RE : regex := Cat (Lit "#") (Group (Plus is_word)).

(** [&\w+;] *)
Definition _HTML_ENTITY_RE : regex := Cat (Lit "&") (Cat (Plus is_word) (Lit ";")).

(** [\s+] *)
Definition _WHITESPACE_RE : regex := Plus is_space.

(** [[*_~`>{}\[\]]+] *)
Definition _MARKDOWN_RE : regex := Plus (one_of "*_~`>{}[]").

(** [^RT\s+], compiled with [re.IGNORECASE] *)
Definition _RT_RE : regex := Cat Bol (Cat (word (to_text "RT")) (Plus is_space)).

(** [Verified Purchase], used with [flags=re.IGNORECASE] *)
Definition _VERIFIED_RE : regex := word (to_text "Verified Purchase").

Definition html_entities (t : text) : text :=
  sub_text false _HTML_ENTITY_RE [RLit (to_text " ")] t.

Definition strip_urls (t : text) : text :=
  sub_text false _URL_RE [RLit []] t.

Definition strip_rt (t : text) : text :=
  sub_text true _RT_RE [RLit []] t.

Definition mentions (t : text) : text :=
  sub_text false _MENTION_RE [RLit (to_text "@user")] t.

Definition hashtags (t : text) : text :=
  sub_text false _HASHTAG_RE [RGroup1] t.

Definition markdown (t : text) : text :=
  sub_text false _MARKDOWN_RE [RLit []] t.

Definition verified (t : text) : text :=
  sub_text true _VERIFIED_RE [RLit []] t.

Definition whitespace (t : text) : text :=
  strip (sub_text false _WHITESPACE_RE [RLit (to_text " ")] t).

(** [platform == "..."]: only a [str] equals a [str]. *)
Definition is_platform (platform : pyval) (name : string) : bool :=
  match platform with
  | PyStr p => String.eqb p name
  | _ => false
  end.

(** The [if / elif / elif] on [platform]. *)
Definition platform_step (platform : pyval) (t : text) : text :=
  if is_platform platform "twitter" then hashtags (mentions (strip_rt t))
  else if is_platform platform "reddit" then markdown t
  else if is_platform platform "amazon" then verified t
  else t.

(** [preprocess] *)
Definition preprocess (txt : pyval) (platform : pyval) : string :=
  match txt with
  | PyStr s =>
      match strip (to_text s) with
      | [] => ""
      | _ :: _ =>
          of_text (whitespace (platform_step platform (strip_urls (html_entities (to_text s)))))
      end
  | _ => ""
  end.

(** [str.split()] with no argument: the maximal runs of non-whitespace. *)
Fixpoint split_go (cur : text) (t : text) : list text :=
  match t with
  | [] => match cur with [] => [] | _ => [rev cur] end
  | c :: t' =>
      if is_space c
      then match cur with [] => split_go [] t' | _ => rev cur :: split_go [] t' end
      else split_go (c :: cur) t'
  end.

Definition split (t : text) : list text := split_go [] t.

Fixpoint startswith (pre t : text) : bool :=
  match pre, t with
  | [], _ => true
  | p :: pre', c :: t' => Ascii.eqb p c && startswith pre' t'
  | _ :: _, [] => false
  end.

(** [" ".join(tokens)] *)
Fixpoint join (sep : text) (ts : list text) : text :=
  match ts with
  | [] => []
  | [t] => t
  | t :: ts' => t ++ sep ++ join sep ts'
  end.

(** [preprocess_for_roberta] *)
Definition preprocess_for_roberta (s : string) : string :=
  of_text (join (to_text " ")
    (map (fun token =>
            if startswith (to_text "@") token && (1 <? length token)%nat then to_text "@user"
            else if startswith (to_text "http") token then to_text "http"
            else token)
         (split (to_text s)))).

End TextPreprocessor.

(** ** Exceptions, dicts and rows *)

(** An instance of [Exception]: its class name and message. *)
Inductive exn := Exn (cls msg : string).

Inductive outcome (A : Type) :=
| Ok (a : A)
| Raise (e : exn).

Arguments Ok {A} a.
Arguments Raise {A} e.

(** A [dict] literal with string keys, in insertion order. *)
Definition dict := list (string * pyval).

(** One row of a DataFrame, as [df.apply(f, axis=1)] hands it to [f]: a
    Series indexed by the column names. *)
Abbreviation row := (gmap string pyval).

(** A DataFrame, row by row.  The pipeline's only caller passes a frame
    with at least one record. *)
Abbreviation frame := (list (gmap string pyval)).

Definition nan : float := PrimFloat.nan.

(** [row[key]] *)
Definition getitem (r : row) (key : string) : outcome pyval :=
  match r !! key with
  | Some v => Ok v
  | None => Raise (Exn "KeyError" key)
  end.

(** [row.get(key, default)] *)
Definition get (r : row) (key : string) (dflt : pyval) : pyval :=
  default dflt (r !! key).

(** [key in row] *)
Definition contains (r : row) (key : string) : bool := bool_decide (is_Some (r !! key)).

(** [pd.notna] on a cell. *)
Definition notna (v : pyval) : bool :=
  match v with
  | PyNone => false
  | PyFloat f => negb (PyFloat.is_nan f)
  | PyStr _ => true
  end.

(** [a == b] on cells. *)
Definition py_eq (a b : pyval) : bool :=
  match a, b with
  | PyNone, PyNone => true
  | PyFloat x, PyFloat y => PrimFloat.eqb x y
  | PyStr x, PyStr y => String.eqb x y
  | _, _ => false
  end.

(** A float operand of [+ - * /]; [None] and [str] operands raise. *)
Definition as_float (v : pyval) : outcome float :=
  match v with
  | PyFloat f => Ok f
  | PyNone => Raise (Exn "TypeError" "unsupported operand type(s): NoneType")
  | PyStr _ => Raise (Exn "TypeError" "unsupported operand type(s): str")
  end.

(** ** vader_analyzer.py *)

Module VaderAnalyzer.

(** What [SentimentIntensityAnalyzer.polarity_scores] returns. *)
Record polarity := Polarity { compound : float; pos : float; neg : float; neu : float }.

(** [VaderAnalyzer]: the wrapped lexicon scorer. *)
Record t := Make { polarity_scores : string -> polarity }.

(** [_compound_to_label] *)
Definition _compound_to_label (compound : float) : string :=
  if PyFloat.ge compound 0.05%float then "positive"
  else if PyFloat.le compound (-0.05)%float then "negative"
  else "neutral".

(** [analyze] *)
Definition analyze (self : t) (txt : string) : dict :=
  let scores := polarity_scores self txt in
  [ ("vader_compound", PyFloat (compound scores));
    ("vader_positive", PyFloat (pos scores));
    ("vader_negative", PyFloat (neg scores));
    ("vader_neutral", PyFloat (neu scores));
    ("vader_label", PyStr (_compound_to_label (compound scores))) ].

End VaderAnalyzer.

(** ** roberta_analyzer.py *)

Module RobertaAnalyzer.

(** The three scores of one text: negative, neutral, positive. *)
Definition scores3 := (float * float * float)%type.

(** [RobertaAnalyzer]: the loaded tokenizer, model and config.
    [forward_one text] is the logits row of the model on the encoding of
    [text] alone, [forward_batch batch] the logits rows of the model on the
    padded encoding of [batch], and [softmax] is [scipy.special.softmax]
    on one row. *)
Record t := Make {
  forward_one : string -> scores3;
  forward_batch : list string -> list scores3;
  softmax : scores3 -> scores3;
  id2label : nat -> string
}.

(** [np.argmax]: the first NaN if there is one, else the first maximum. *)
Definition argmax (s : scores3) : nat :=
  let '(a, b, c) := s in
  if PyFloat.is_nan a then 0
  else if PyFloat.is_nan b then 1
  else if PyFloat.is_nan c then 2
  else if PyFloat.ge a b && PyFloat.ge a c then 0
  else if PyFloat.ge b c then 1
  else 2.

Definition nth3 (s : scores3) (i : nat) : float :=
  let '(a, b, c) := s in
  match i with 0 => a | 1 => b | _ => c end.

(** The result dict both paths build from one row of scores. *)
Definition result (self : t) (scores : scores3) : dict :=
  let label_idx := argmax scores in
  [ ("roberta_label", PyStr (id2label self label_idx));
    ("roberta_score", PyFloat (nth3 scores label_idx));
    ("roberta_positive", PyFloat (nth3 scores 2));
    ("roberta_negative", PyFloat (nth3 scores 0));
    ("roberta_neutral", PyFloat (nth3 scores 1)) ].

(** [analyze] *)
Definition analyze (self : t) (txt : string) : dict :=
  result self (softmax self (forward_one self txt)).

(** [range(i, n, step)] for a positive [step]. *)
Fixpoint range_from (fuel i n step : nat) : list nat :=
  match fuel with
  | O => []
  | S fuel' => if (i <? n)%nat then i :: range_from fuel' (i + step) n step else []
  end.

(** [range(0, n, step)]: an error on step 0, empty on a negative step. *)
Definition range (n : nat) (step : Z) : outcome (list nat) :=
  if (step =? 0)%Z then Raise (Exn "ValueError" "range() arg 3 must not be zero")
  else if (step <? 0)%Z then Ok []
  else Ok (range_from n 0 n (Z.to_nat step)).

(** [texts[i : i + batch_size]] *)
Definition slice (texts : list string) (i size : nat) : list string :=
  take size (drop i texts).

(** The body of the loop of [analyze_batch]: one inference call on the
    batch, then one result per row of [batch_scores]. *)
Definition score_chunk (self : t) (batch : list string) : list dict :=
  let batch_scores := map (softmax self) (forward_batch self batch) in
  map (result self) batch_scores.

(** [analyze_batch] *)
Definition analyze_batch (self : t) (texts : list string) (batch_size : Z)
    : outcome (list dict) :=
  match range (length texts) batch_size with
  | Raise e => Raise e
  | Ok starts =>
      Ok (concat (map (fun i => score_chunk self (slice texts i (Z.to_nat batch_size)))
                      starts))
  end.

Definition default_batch_size : Z := 32.

End RobertaAnalyzer.

(** ** The store of DataFrames and the log

    A DataFrame is a mutable object: a variable holds a reference to it and
    [df[col] = values] updates the object in place.  The state is the store
    of frames by reference and the records the module logger has emitted. *)

Record world := World {
  frames : gmap nat frame;
  log : list (string * string)
}.

Definition M (A : Type) : Type := world -> outcome A * world.

#[global] Instance M_ret : MRet M := fun A a w => (Ok a, w).

#[global] Instance M_bind : MBind M := fun A B f m w =>
  match m w with
  | (Ok a, w') => f a w'
  | (Raise e, w') => (Raise e, w')
  end.

Definition raise {A} (e : exn) : M A := fun w => (Raise e, w).

Definition lift {A} (o : outcome A) : M A := fun w => (o, w).

(** [logger.info] and [logger.warning] *)
Definition logger (level msg : string) : M unit :=
  fun w => (Ok tt, World (frames w) (log w ++ [(level, msg)])).

(** Reading the frame behind a reference. *)
Definition deref (df : nat) : M frame := fun w =>
  match frames w !! df with
  | Some f => (Ok f, w)
  | None => (Raise (Exn "ReferenceError" ""), w)
  end.

(** [df.copy()]: a new object with the same rows; the reference is fresh. *)
Definition alloc (f : frame) : M nat := fun w =>
  let df' := fresh (dom (frames w)) in
  (Ok df', World (<[df' := f]> (frames w)) (log w)).

Definition df_copy (df : nat) : M nat :=
  f ← deref df; alloc f.

(** A function over the elements of a list that may raise. *)
Fixpoint traverse {A B} (f : A -> outcome B) (l : list A) : outcome (list B) :=
  match l with
  | [] => Ok []
  | a :: l' =>
      match f a with
      | Raise e => Raise e
      | Ok b => match traverse f l' with
                | Raise e => Raise e
                | Ok bs => Ok (b :: bs)
                end
      end
  end.

(** [df.apply(f, axis=1)] *)
Definition df_apply {A} (df : nat) (f : row -> outcome A) : M (list A) :=
  rows ← deref df; lift (traverse f rows).

(** [df[col]] *)
Definition df_getitem (df : nat) (col : string) : M (list pyval) :=
  df_apply df (fun r => getitem r col).

Definition store (df : nat) (f : frame) : M unit := fun w =>
  (Ok tt, World (<[df := f]> (frames w)) (log w)).

(** [df[col] = values]: in place, one value per row. *)
Definition df_setitem (df : nat) (col : string) (values : list pyval) : M unit :=
  rows ← deref df;
  if decide (length values = length rows)
  then store df (zip_with (fun r v => <[col := v]> r) rows values)
  else raise (Exn "ValueError" "Length of values does not match length of index").

(** [pd.DataFrame(records)] followed by
    [for col in it.columns: df[col] = it[col].values]. *)
Definition columns (records : list dict) : list string :=
  match records with
  | [] => []
  | d :: _ => map fst d
  end.

Definition field (col : string) (d : dict) : pyval :=
  match list_find (fun kv => kv.1 = col) d with
  | Some (_, kv) => kv.2
  | None => PyFloat nan
  end.

Fixpoint df_attach_cols (df : nat) (cols : list string) (records : list dict) : M unit :=
  match cols with
  | [] => mret tt
  | col :: cols' =>
      _ ← df_setitem df col (map (field col) records);
      df_attach_cols df cols' records
  end.

Definition df_attach (df : nat) (records : list dict) : M unit :=
  df_attach_cols df (columns records) records.

(** ** sentiment_pipeline.py *)

Module SentimentPipeline.

Section Builtins.

(** [repr] of a float that is not NaN, as [str()] prints it. *)
Variable float_repr : float -> string.

(** [str(v)] *)
Definition py_str (v : pyval) : string :=
  match v with
  | PyNone => "None"
  | PyFloat f => if PyFloat.is_nan f then "nan" else float_repr f
  | PyStr s => s
  end.

(** [SentimentPipeline]: [self.roberta] is [None] or the analyzer. *)
Record t := Make {
  vader : VaderAnalyzer.t;
  roberta : option RobertaAnalyzer.t
}.

(** [__init__]: [new_roberta] is what the call [RobertaAnalyzer()] does. *)
Definition __init__ (new_vader : VaderAnalyzer.t)
    (new_roberta : outcome RobertaAnalyzer.t) (use_roberta : bool) : M t :=
  if use_roberta then
    match new_roberta with
    | Ok r => mret (Make new_vader (Some r))
    | Raise (Exn _ e) =>
        _ ← logger "WARNING" ("RoBERTa unavailable, using VADER only: " +:+ e);
        mret (Make new_vader None)
    end
  else mret (Make new_vader None).

(** Truth value of [self.roberta]. *)
Definition has_roberta (self : t) : bool :=
  match roberta self with Some _ => true | None => false end.

(** [_ensemble_label] *)
Definition _ensemble_label (self : t) (r : row) : outcome pyval :=
  if has_roberta self && contains r "roberta_label"
     && notna (get r "roberta_label" PyNone)
  then
    match getitem r "vader_label" with
    | Raise e => Raise e
    | Ok vl =>
        match getitem r "roberta_label" with
        | Raise e => Raise e
        | Ok rl => if py_eq vl rl then getitem r "vader_label"
                   else getitem r "roberta_label"
        end
    end
  else getitem r "vader_label".

(** [(x + 1) / 2] *)
Definition norm01 (x : float) : float := ((x + 1) / 2)%float.

(** [_ensemble_score] *)
Definition _ensemble_score (self : t) (r : row) : outcome pyval :=
  match getitem r "vader_compound" with
  | Raise e => Raise e
  | Ok vc =>
      match as_float vc with
      | Raise e => Raise e
      | Ok c =>
          let vader_norm := norm01 c in
          if has_roberta self && contains r "roberta_positive"
             && notna (get r "roberta_positive" PyNone)
          then
            match getitem r "roberta_positive" with
            | Raise e => Raise e
            | Ok rp =>
                match getitem r "roberta_negative" with
                | Raise e => Raise e
                | Ok rn =>
                    match as_float rp, as_float rn with
                    | Ok p, Ok n =>
                        let roberta_score := (p - n)%float in
                        let roberta_norm := norm01 roberta_score in
                        Ok (PyFloat (0.3 * vader_norm + 0.7 * roberta_norm)%float)
                    | Raise e, _ => Raise e
                    | _, Raise e => Raise e
                    end
                end
            end
          else Ok (PyFloat vader_norm)
      end
  end.

(** The lambda of step 1. *)
Definition clean_row (r : row) : outcome pyval :=
  Ok (PyStr (TextPreprocessor.preprocess
               (PyStr (py_str (get r "text" (PyStr ""))))
               (PyStr (py_str (get r "platform" (PyStr "")))))).

(** The analyzers take a [str]. *)
Definition as_str (v : pyval) : outcome string :=
  match v with
  | PyStr s => Ok s
  | _ => Raise (Exn "TypeError" "expected str")
  end.

(** The four steps of [analyze_dataframe], on the copy. *)
Definition enrich (self : t) (df : nat) : M nat :=
  _ ← logger "INFO" "Step 1/3: Preprocessing text...";
  clean ← df_apply df clean_row;
  _ ← df_setitem df "clean_text" clean;
  _ ← logger "INFO" "Step 2/3: Running VADER analysis...";
  texts ← df_getitem df "clean_text";
  texts ← lift (traverse as_str texts);
  let vader_results := map (VaderAnalyzer.analyze (vader self)) texts in
  _ ← df_attach df vader_results;
  _ ← match roberta self with
      | Some r =>
          _ ← logger "INFO" "Step 3/3: Running RoBERTa analysis...";
          cells ← df_getitem df "clean_text";
          cells ← lift (traverse as_str cells);
          let roberta_texts := map TextPreprocessor.preprocess_for_roberta cells in
          roberta_results ← lift (RobertaAnalyzer.analyze_batch r roberta_texts
                                    RobertaAnalyzer.default_batch_size);
          df_attach df roberta_results
      | None => logger "INFO" "Step 3/3: Skipping RoBERTa (not available)"
      end;
  labels ← df_apply df (_ensemble_label self);
  _ ← df_setitem df "final_label" labels;
  scores ← df_apply df (_ensemble_score self);
  _ ← df_setitem df "final_score" scores;
  mret df.

(** [analyze_dataframe]: [df = df.copy()], then the steps; [show_progress]
    only wraps the iterator of step 2 in a progress bar. *)
Definition analyze_dataframe (self : t) (df : nat) (show_progress : bool) : M nat :=
  df ← df_copy df; enrich self df.

End Builtins.

End SentimentPipeline.

(** ** Notions the properties are stated with *)

(** The contextual result of a record is absent when the pipeline has no
    contextual scorer, or the row has no such field, or the field is null. *)
Definition absent (self : SentimentPipeline.t) (r : row) (key : string) : Prop :=
  SentimentPipeline.roberta self = None \/ r !! key = None
  \/ exists v, r !! key = Some v /\ notna v = false.

(** A value is blank when it is not a [str], or a [str] of whitespace only
    (the empty string included). *)
Definition is_blank (v : pyval) : bool :=
  match v with
  | PyStr s => forallb is_space (to_text s)
  | _ => true
  end.

(** The partition of a list into consecutive chunks of [size] elements, the
    last one possibly shorter. *)
Fixpoint chunks_go {A} (fuel size : nat) (l : list A) : list (list A) :=
  match fuel with
  | O => []
  | S fuel' =>
      match l with
      | [] => []
      | _ :: _ => take size l :: chunks_go fuel' size (drop size l)
      end
  end.

Definition chunks {A} (size : nat) (l : list A) : list (list A) :=
  chunks_go (length l) size l.


(** The row the lexical-only pipeline makes of an input row: the clean
    text, the five lexical fields and the two final fields. *)
Definition clean_of (float_repr : float -> string) (r : row) : string :=
  TextPreprocessor.preprocess
    (PyStr (SentimentPipeline.py_str float_repr (get r "text" (PyStr ""))))
    (PyStr (SentimentPipeline.py_str float_repr (get r "platform" (PyStr "")))).

Definition lexical_row (float_repr : float -> string) (va : VaderAnalyzer.t) (r : row) : row :=
  let scores := VaderAnalyzer.polarity_scores va (clean_of float_repr r) in
  let c := VaderAnalyzer.compound scores in
  <["final_score" := PyFloat (SentimentPipeline.norm01 c)]>
  (<["final_label" := PyStr (VaderAnalyzer._compound_to_label c)]>
  (<["vader_label" := PyStr (VaderAnalyzer._compound_to_label c)]>
  (<["vader_neutral" := PyFloat (VaderAnalyzer.neu scores)]>
  (<["vader_negative" := PyFloat (VaderAnalyzer.neg scores)]>
  (<["vader_positive" := PyFloat (VaderAnalyzer.pos scores)]>
  (<["vader_compound" := PyFloat c]>
  (<["clean_text" := PyStr (clean_of float_repr r)]> r))))))).

(** The fields [analyze_dataframe] derives in lexical-only mode. *)
Definition lexical_fields : list string :=
  ["clean_text"; "vader_compound"; "vader_positive"; "vader_negative";
   "vader_neutral"; "vader_label"; "final_label"; "final_score"].

(** The three records a lexical-only run logs. *)
Definition lexical_log : list (string * string) :=
  [("INFO", "Step 1/3: Preprocessing text...");
   ("INFO", "Step 2/3: Running VADER analysis...");
   ("INFO", "Step 3/3: Skipping RoBERTa (not available)")].

(** A row after the records' columns [cols] are attached to it. *)
Definition with_fields (cols : list string) (d : dict) (r : row) : row :=
  foldl (fun acc col => <[col := field col d]> acc) r cols.

Definition vader_cols : list string :=
  ["vader_compound"; "vader_positive"; "vader_negative"; "vader_neutral"; "vader_label"].

Definition roberta_cols : list string :=
  ["roberta_label"; "roberta_score"; "roberta_positive"; "roberta_negative";
   "roberta_neutral"].

(** Every field [analyze_dataframe] may set. *)
Definition derived_fields : list string :=
  "clean_text" :: vader_cols ++ roberta_cols ++ ["final_label"; "final_score"].

(** [r'] is [r] with derived fields added or replaced. *)
Definition extends (r r' : row) : Prop :=
  forall k : string, k ∉ derived_fields -> r' !! k = r !! k.

(** A triple for a computation: it keeps the invariant [I] of the
    store of frames, whether it returns or raises, and a value it returns
    satisfies [Q]. *)
Definition hoare {A} (I : gmap nat frame -> Prop) (c : M A) (Q : A -> Prop) : Prop :=
  forall w, I (frames w) ->
    I (frames (c w).2) /\ forall a, (c w).1 = Ok a -> Q a.

(** The invariant of a run whose copy lives at [df']: every other frame of
    the store [m0] is as it was, and the copy's rows extend [rows]. *)
Definition copy_inv (df' : nat) (m0 : gmap nat frame) (rows : frame)
    (m : gmap nat frame) : Prop :=
  (forall l, l <> df' -> m !! l = m0 !! l)
  /\ exists out, m !! df' = Some out /\ Forall2 extends rows out.

(** The text left after the longest run of [p]-characters at its start. *)
Fixpoint skip (p : ascii -> bool) (t : text) : text :=
  match t with
  | c :: t' => if p c then skip p t' else t
  | [] => []
  end.

(** The substitution from a position on, with the fuel [sub_text] gives. *)
Definition sub_at (icase : bool) (r : Re.regex) (tmpl : list Re.ritem)
    (bos : bool) (s : text) : text :=
  Re.sub_loop (S (length s)) icase r tmpl bos s.

(** A match result, seen from a text with [v] appended. *)
Definition extend (v : text) (o : option Re.mstate) : option Re.mstate :=
  match o with
  | Some st => Some (Re.MState (Re.at_bos st) (Re.grp1 st) (Re.input st ++ v))
  | None => None
  end.

(** Whether a text starts with a [p]-character. *)
Definition starts_with (p : ascii -> bool) (t : text) : bool :=
  match t with
  | c :: _ => p c
  | [] => false
  end.

(** The characters of a retweet marker: [R] or [r], [T] or [t], whitespace. *)
Definition marker_char (c : ascii) : bool :=
  Ascii.eqb (lower c) "r" || Ascii.eqb (lower c) "t" || is_space c.

(** ** Sample objects

    A lexicon scorer that finds every text neutral, a contextual model
    that scores a text by its length alone, and a [repr] of floats. *)

Definition sample_vader : VaderAnalyzer.t :=
  VaderAnalyzer.Make (fun _ => VaderAnalyzer.Polarity 0 0 0 1).

Definition sample_logits (txt : string) : RobertaAnalyzer.scores3 :=
  if (String.length txt <? 4)%nat then (0.1, 0.2, 0.7)%float else (0.6, 0.3, 0.1)%float.

Definition sample_roberta : RobertaAnalyzer.t :=
  RobertaAnalyzer.Make sample_logits (map sample_logits) (fun scores => scores)
    (fun i => match i with 0 => "negative" | 1 => "neutral" | _ => "positive" end).




Definition sample_repr (f : float) : string := "0.0".

Definition sample_row : row :=
  {[ "vader_label" := PyStr "positive"; "vader_compound" := PyFloat 0.5%float;
     "roberta_label" := PyStr "negative"; "roberta_positive" := PyFloat 0.25%float;
     "roberta_negative" := PyFloat 0.5%float ]}.

Definition sample_world : world :=
  World {[ 0 := [ {[ "text" := PyStr "RT @bob nice #day"; "platform" := PyStr "twitter" ]};
                  {[ "text" := PyNone; "platform" := PyStr "reddit" ]} ] ]} [].

(** Whether a pattern can only match a text with at least one character. *)
Fixpoint nonempty (r : Re.regex) : bool :=
  match r with
  | Re.Eps | Re.Bol | Re.Opt _ => false
  | Re.Lit _ | Re.Class _ | Re.Plus _ => true
  | Re.Cat r1 r2 => nonempty r1 || nonempty r2
  | Re.Alt r1 r2 => nonempty r1 && nonempty r2
  | Re.Group r' => nonempty r'
  end.

(** Every run of [p]-characters replaced by [rep]; [in_run] says that the
    run the scan is in has been replaced already. *)
Fixpoint squash_go (p : ascii -> bool) (rep : text) (in_run : bool) (t : text) : text :=
  match t with
  | [] => []
  | c :: t' =>
      if p c then (if in_run then [] else rep) ++ squash_go p rep true t'
      else c :: squash_go p rep false t'
  end.

(** Every whitespace character is a space that no whitespace follows. *)
Fixpoint single_spaced (t : text) : bool :=
  match t with
  | [] => true
  | c :: t' =>
      (negb (is_space c) || (Ascii.eqb c " " && negb (starts_with is_space t')))
      && single_spaced t'
  end.

(** Whether no atom of a pattern accepts the character [x]. *)
Fixpoint avoids (icase : bool) (x : ascii) (r : Re.regex) : bool :=
  match r with
  | Re.Eps | Re.Bol => true
  | Re.Lit c => negb (Re.chr_eq icase c x)
  | Re.Class p | Re.Plus p => negb (p x)
  | Re.Cat r1 r2 | Re.Alt r1 r2 => avoids icase x r1 && avoids icase x r2
  | Re.Opt r' | Re.Group r' => avoids icase x r'
  end.

(** The three ways a URL of [_URL_RE] starts. *)
Definition url_scheme (scheme : text) : Prop :=
  scheme = to_text "http://" \/ scheme = to_text "https://" \/ scheme = to_text "www.".

(** What [preprocess_for_roberta] makes of one token. *)
Definition roberta_token (token : text) : text :=
  if TextPreprocessor.startswith (to_text "@") token && (1 <? length token)%nat
  then to_text "@user"
  else if TextPreprocessor.startswith (to_text "http") token then to_text "http"
  else token.

(** What [str.split()] returns: words, each with a character and without
    whitespace. *)
Definition is_token (token : text) : Prop :=
  token <> [] /\ forallb is_nonspace token = true.

(** The rows of probabilities [analyze_batch] computes, chunk by chunk. *)
Definition batch_scores (self : RobertaAnalyzer.t) (size : nat) (texts : list string)
    : list RobertaAnalyzer.scores3 :=
  concat (map (fun chunk => map (RobertaAnalyzer.softmax self)
                              (RobertaAnalyzer.forward_batch self chunk))
              (chunks size texts)).

(** The text the contextual scorer is given for a row. *)
Definition roberta_text (float_repr : float -> string) (r : row) : string :=
  TextPreprocessor.preprocess_for_roberta (clean_of float_repr r).

(** The rows of a run with the contextual scorer: the lexical part of a
    row, the row with the contextual fields of its scores attached, and
    the two final fields. *)
Definition lexical_part (float_repr : float -> string) (va : VaderAnalyzer.t)
    (r : row) : row :=
  with_fields vader_cols (VaderAnalyzer.analyze va (clean_of float_repr r))
    (<["clean_text" := PyStr (clean_of float_repr r)]> r).

Definition compound_of (float_repr : float -> string) (va : VaderAnalyzer.t)
    (r : row) : float :=
  VaderAnalyzer.compound (VaderAnalyzer.polarity_scores va (clean_of float_repr r)).

Definition scored (float_repr : float -> string) (va : VaderAnalyzer.t)
    (ra : RobertaAnalyzer.t) (x : row * RobertaAnalyzer.scores3) : row :=
  with_fields roberta_cols (RobertaAnalyzer.result ra x.2)
    (lexical_part float_repr va x.1).

Definition final_label_of (ra : RobertaAnalyzer.t)
    (x : row * RobertaAnalyzer.scores3) : pyval :=
  PyStr (RobertaAnalyzer.id2label ra (RobertaAnalyzer.argmax x.2)).

Definition final_score_of (float_repr : float -> string) (va : VaderAnalyzer.t)
    (x : row * RobertaAnalyzer.scores3) : pyval :=
  let c := compound_of float_repr va x.1 in
  let p := RobertaAnalyzer.nth3 x.2 2 in
  let n := RobertaAnalyzer.nth3 x.2 0 in
  PyFloat (if PyFloat.is_nan p then SentimentPipeline.norm01 c
           else (0.3 * SentimentPipeline.norm01 c
                 + 0.7 * SentimentPipeline.norm01 (p - n))%float).

(** ** wordcloud_helper.py *)

Module WordCloudHelper.

Section Rendering.

(** The image [WordCloud(...).generate(text)] makes, or the exception it
    raises; its arguments here are [max_words], [colormap] and the text. *)
Variable image : Type.
Variable wordcloud_generate : Z -> string -> string -> outcome image.

(** The figure [generate_wordcloud] returns: a message on empty axes, or a
    word cloud under a title. *)
Inductive figure :=
| Message (message : string)
| Cloud (wc : image) (title : string).

(** [[str(t) for t in texts if isinstance(t, str)]] *)
Fixpoint strings (texts : list pyval) : list text :=
  match texts with
  | [] => []
  | PyStr s :: texts' => to_text s :: strings texts'
  | _ :: texts' => strings texts'
  end.

(** [generate_wordcloud] *)
Definition generate_wordcloud (texts : list pyval) (title : string) (max_words : Z)
    (colormap : string) : outcome figure :=
  let combined_text := TextPreprocessor.join (to_text " ") (strings texts) in
  match strip combined_text with
  | [] => Ok (Message "No text data available")
  | _ :: _ =>
      match wordcloud_generate max_words colormap (of_text combined_text) with
      | Raise e => Raise e
      | Ok wc => Ok (Cloud wc title)
      end
  end.

End Rendering.

End WordCloudHelper.

(** The retweet marker at the very start of a text: [R] or [r], [T] or
    [t], then a whitespace character. *)
Definition rt_marker (t : text) : bool :=
  match t with
  | x :: y :: c :: _ => Ascii.eqb "r" (lower x) && Ascii.eqb "t" (lower y) && is_space c
  | _ => false
  end.

(** * Properties *)

(** The two threshold tests exclude each other: no float is both at least
    0.05 and at most -0.05. *)
Lemma thresholds_exclusive (c : float) :
  PyFloat.le c (-0.05)%float = true -> PyFloat.ge c 0.05%float = false.
Proof.
  unfold PyFloat.le, PyFloat.ge.
  rewrite !leb_spec. unfold SFleb.
  replace (Prim2SF (-0.05)%float) with (S754_finite true 7205759403792794 (-57))
    by (vm_compute; reflexivity).
  replace (Prim2SF 0.05%float) with (S754_finite false 7205759403792794 (-57))
    by (vm_compute; reflexivity).
  destruct (Prim2SF c) as [s | s | | s m e]; try destruct s; cbn [SFcompare]; try discriminate;
    try reflexivity.
Qed.

(** C3: the lexical label is [positive] from 0.05 upwards, [negative] from
    -0.05 downwards and [neutral] for every other compound, NaN included;
    the two boundaries are inclusive and 0.0 is neutral. *)
Theorem C3_compound_to_label_thresholds :
  (forall c : float,
      (PyFloat.ge c 0.05%float = true ->
       VaderAnalyzer._compound_to_label c = "positive")
      /\ (PyFloat.le c (-0.05)%float = true ->
          VaderAnalyzer._compound_to_label c = "negative")
      /\ (PyFloat.ge c 0.05%float = false ->
          PyFloat.le c (-0.05)%float = false ->
          VaderAnalyzer._compound_to_label c = "neutral"))
  /\ VaderAnalyzer._compound_to_label 0.05%float = "positive"
  /\ VaderAnalyzer._compound_to_label (-0.05)%float = "negative"
  /\ VaderAnalyzer._compound_to_label 0%float = "neutral".
Proof.
  split; [| repeat split; vm_compute; reflexivity].
  intros c. unfold VaderAnalyzer._compound_to_label. repeat split.
  - intros ->. reflexivity.
  - intros H. rewrite (thresholds_exclusive c H), H. reflexivity.
  - intros -> ->. reflexivity.
Qed.

(** ** The ensemble resolver *)

Section Ensemble.

Import SentimentPipeline.

Variable self : SentimentPipeline.t.
Variable r : row.

Lemma absent_guard key :
  absent self r key ->
  has_roberta self && contains r key && notna (get r key PyNone) = false.
Proof.
  unfold absent, has_roberta, contains, get.
  intros [-> | [-> | (v & -> & Hv)]]; simpl.
  - reflexivity.
  - rewrite andb_false_r. reflexivity.
  - rewrite Hv, andb_false_r. reflexivity.
Qed.

Lemma present_guard key v :
  has_roberta self = true -> r !! key = Some v -> notna v = true ->
  has_roberta self && contains r key && notna (get r key PyNone) = true.
Proof.
  unfold contains, get. intros Hrob Hkey Hv. rewrite Hrob.
  rewrite bool_decide_eq_true_2 by (rewrite Hkey; eauto).
  rewrite Hkey. simpl. exact Hv.
Qed.

(** C1: without a contextual result the final label is the lexical label;
    with one, equal labels give that label and differing labels give the
    contextual label, which is then not the lexical one. *)
Theorem C1_ensemble_label (lex : string) :
  r !! "vader_label" = Some (PyStr lex) ->
  (absent self r "roberta_label" -> _ensemble_label self r = Ok (PyStr lex))
  /\ (forall ctx : string,
         has_roberta self = true ->
         r !! "roberta_label" = Some (PyStr ctx) ->
         (lex = ctx -> _ensemble_label self r = Ok (PyStr lex))
         /\ (lex <> ctx ->
             _ensemble_label self r = Ok (PyStr ctx)
             /\ _ensemble_label self r <> Ok (PyStr lex))).
Proof.
  intros Hlex. unfold _ensemble_label. split.
  - intros Habs. rewrite (absent_guard _ Habs).
    unfold getitem. rewrite Hlex. reflexivity.
  - intros ctx Hrob Hctx.
    rewrite (present_guard _ _ Hrob Hctx eq_refl).
    unfold getitem. rewrite Hlex, Hctx. simpl.
    destruct (String.eqb_spec lex ctx) as [-> | Hne].
    + split; [reflexivity | congruence].
    + split; [congruence |]. intros _. split; congruence.
Qed.

(** C2: with [lex_norm = (compound + 1) / 2], the final score is [lex_norm]
    without a contextual result and
    [0.3 * lex_norm + 0.7 * ((positive - negative + 1) / 2)] with one. *)
Theorem C2_ensemble_score (compound : float) :
  r !! "vader_compound" = Some (PyFloat compound) ->
  let lex_norm := ((compound + 1) / 2)%float in
  (absent self r "roberta_positive" -> _ensemble_score self r = Ok (PyFloat lex_norm))
  /\ (forall positive negative : float,
         has_roberta self = true ->
         r !! "roberta_positive" = Some (PyFloat positive) ->
         PyFloat.is_nan positive = false ->
         r !! "roberta_negative" = Some (PyFloat negative) ->
         let ctx_signal := (positive - negative)%float in
         let ctx_norm := ((ctx_signal + 1) / 2)%float in
         _ensemble_score self r
         = Ok (PyFloat (0.3 * lex_norm + 0.7 * ctx_norm)%float)).
Proof.
  intros Hc lex_norm. unfold _ensemble_score, getitem. rewrite Hc. simpl. split.
  - intros Habs. rewrite (absent_guard _ Habs). reflexivity.
  - intros p n Hrob Hp Hnan Hn. cbv zeta.
    rewrite (present_guard _ (PyFloat p) Hrob Hp) by (simpl; rewrite Hnan; reflexivity).
    rewrite Hp, Hn. reflexivity.
Qed.

End Ensemble.

(** ** Blank and malformed input *)

Lemma lstrip_blank (t : text) : forallb is_space t = true -> lstrip t = [].
Proof.
  induction t as [| c t IH]; simpl; [reflexivity |].
  destruct (is_space c); simpl; [exact IH | discriminate].
Qed.

Lemma lstrip_nonblank (t : text) : forallb is_space t = false -> lstrip t <> [].
Proof.
  induction t as [| c t IH]; simpl; [discriminate |].
  destruct (is_space c) eqn:Hc; simpl; [exact IH | discriminate].
Qed.

Lemma lstrip_suffix (t : text) : exists pre, t = pre ++ lstrip t /\ forallb is_space pre = true.
Proof.
  induction t as [| c t (pre & Heq & Hpre)]; simpl.
  - exists []. split; reflexivity.
  - destruct (is_space c) eqn:Hc.
    + exists (c :: pre). simpl. rewrite Hc, Hpre. split; [f_equal; exact Heq | reflexivity].
    + exists []. split; reflexivity.
Qed.

Lemma lstrip_head (t : text) c t' : lstrip t = c :: t' -> is_space c = false.
Proof.
  induction t as [| x t IH]; simpl; [discriminate |].
  destruct (is_space x) eqn:Hx; [exact IH |].
  intros [= <- _]. exact Hx.
Qed.

(** [text.strip()] is empty exactly on whitespace-only strings. *)
Lemma strip_blank_iff (t : text) : strip t = [] <-> forallb is_space t = true.
Proof.
  unfold strip, rstrip. split.
  - intros H. destruct (forallb is_space t) eqn:Hb; [reflexivity | exfalso].
    apply lstrip_nonblank in Hb.
    destruct (lstrip t) as [| c u] eqn:Hl; [congruence |].
    apply (f_equal (@rev ascii)) in H. rewrite rev_involutive in H.
    change (rev (@nil ascii)) with (@nil ascii) in H.
    pose proof (lstrip_head _ _ _ Hl) as Hc.
    destruct (lstrip_suffix (rev (c :: u))) as (pre & Heq & Hpre).
    rewrite H, app_nil_r in Heq.
    assert (Hin : In c pre).
    { rewrite <- Heq. rewrite <- in_rev. left. reflexivity. }
    rewrite forallb_forall in Hpre. rewrite (Hpre c Hin) in Hc. discriminate.
  - intros H. rewrite (lstrip_blank t H). reflexivity.
Qed.

(** C4: on a value that is not a string and on a string that is blank
    after trimming, [preprocess] returns the empty string, whatever the
    platform value is; [preprocess] is a total function into strings. *)
Theorem C4_preprocess_blank (txt platform : pyval) :
  is_blank txt = true ->
  TextPreprocessor.preprocess txt platform = "".
Proof.
  destruct txt as [| f | s]; simpl; try reflexivity.
  intros H. apply strip_blank_iff in H.
  unfold TextPreprocessor.preprocess. rewrite H. reflexivity.
Qed.

(** ** Batch scoring *)

Section Batch.

Import RobertaAnalyzer.

Variable self : RobertaAnalyzer.t.

(** The model returns one row of logits per text of the batch. *)
Hypothesis rows_per_text :
  forall batch, length (forward_batch self batch) = length batch.

Lemma range_from_chunks (texts : list string) (size : nat) :
  0 < size ->
  forall fuel i,
    length texts - i <= fuel ->
    map (fun i => slice texts i size) (range_from fuel i (length texts) size)
    = chunks_go fuel size (drop i texts).
Proof.
  intros Hsize. induction fuel as [| fuel IH]; intros i Hfuel; simpl; [reflexivity |].
  destruct (Nat.ltb_spec i (length texts)) as [Hlt | Hge].
  - destruct (drop i texts) as [| x rest] eqn:Hd.
    + apply (f_equal length) in Hd. rewrite length_drop in Hd. simpl in Hd. lia.
    + simpl. rewrite <- Hd. unfold slice at 1. f_equal.
      rewrite IH by lia. rewrite drop_drop. reflexivity.
  - rewrite drop_ge by lia. reflexivity.
Qed.

Lemma concat_chunks_go {A} (size : nat) :
  0 < size ->
  forall fuel (l : list A), length l <= fuel -> concat (chunks_go fuel size l) = l.
Proof.
  intros Hsize. induction fuel as [| fuel IH]; intros l Hl.
  - destruct l; [reflexivity | simpl in Hl; lia].
  - destruct l as [| x l']; [reflexivity |].
    cbn [chunks_go concat]. rewrite IH.
    + apply take_drop.
    + rewrite length_drop. simpl in *. lia.
Qed.






End Batch.


(** ** Running the pipeline on the store *)

Lemma bind_ok {A B} (m : M A) (f : A -> M B) w a w' :
  m w = (Ok a, w') -> (m ≫= f) w = f a w'.
Proof. intros H. unfold mbind, M_bind. rewrite H. reflexivity. Qed.

Lemma bind_raise {A B} (m : M A) (f : A -> M B) w e w' :
  m w = (Raise e, w') -> (m ≫= f) w = (Raise e, w').
Proof. intros H. unfold mbind, M_bind. rewrite H. reflexivity. Qed.

Lemma traverse_map {A B C} (f : B -> outcome C) (g : A -> B) (h : A -> C) (l : list A) :
  (forall a, f (g a) = Ok (h a)) -> traverse f (map g l) = Ok (map h l).
Proof.
  intros H. induction l as [| a l IH]; simpl; [reflexivity |].
  rewrite H, IH. reflexivity.
Qed.

Lemma zip_with_map_map {A B C D} (op : B -> C -> D) (f : A -> B) (g : A -> C) (l : list A) :
  zip_with op (map f l) (map g l) = map (fun a => op (f a) (g a)) l.
Proof. induction l as [| a l IH]; simpl; [reflexivity | rewrite IH; reflexivity]. Qed.

Section Steps.

Variables (df : nat) (m : gmap nat frame) (lg : list (string * string)).
Variables (X : Type) (rows : list X) (F : X -> row).

Local Abbreviation w := (World (<[df := map F rows]> m) lg).

Lemma deref_run : deref df w = (Ok (map F rows), w).
Proof. unfold deref. simpl. rewrite lookup_insert_eq. reflexivity. Qed.

Lemma df_apply_run {A} (f : row -> outcome A) (h : X -> A) :
  (forall r, f (F r) = Ok (h r)) ->
  df_apply df f w = (Ok (map h rows), w).
Proof.
  intros H. unfold df_apply. rewrite (bind_ok _ _ _ _ _ deref_run).
  unfold lift. rewrite (traverse_map f F h rows H). reflexivity.
Qed.

Lemma df_getitem_run (col : string) (h : X -> pyval) :
  (forall r, F r !! col = Some (h r)) ->
  df_getitem df col w = (Ok (map h rows), w).
Proof.
  intros H. apply df_apply_run. intros r. unfold getitem. rewrite H. reflexivity.
Qed.

Lemma df_setitem_run (col : string) (g : X -> pyval) :
  df_setitem df col (map g rows) w
  = (Ok tt, World (<[df := map (fun r => <[col := g r]> (F r)) rows]> m) lg).
Proof.
  unfold df_setitem. rewrite (bind_ok _ _ _ _ _ deref_run).
  rewrite decide_True by (rewrite !length_map; reflexivity).
  unfold store. simpl. rewrite insert_insert_eq, zip_with_map_map. reflexivity.
Qed.

Lemma logger_run (level msg : string) :
  logger level msg w = (Ok tt, World (<[df := map F rows]> m) (lg ++ [(level, msg)])).
Proof. reflexivity. Qed.

End Steps.

Lemma df_attach_cols_run {X} (df : nat) (m : gmap nat frame) (lg : list (string * string))
    (rows : list X) (rec : X -> dict) (cols : list string) :
  forall F : X -> row,
    df_attach_cols df cols (map rec rows) (World (<[df := map F rows]> m) lg)
    = (Ok tt,
       World (<[df := map (fun r => with_fields cols (rec r) (F r)) rows]> m) lg).
Proof.
  induction cols as [| col cols IH]; intros F; simpl.
  - reflexivity.
  - rewrite map_map.
    erewrite bind_ok; [| apply df_setitem_run].
    exact (IH (fun r => <[col := field col (rec r)]> (F r))).
Qed.

Lemma df_attach_run {X} (df : nat) (m : gmap nat frame) (lg : list (string * string))
    (rows : list X) (rec : X -> dict) (cols : list string) (F : X -> row) :
  (forall r, map fst (rec r) = cols) ->
  df_attach df (map rec rows) (World (<[df := map F rows]> m) lg)
  = (Ok tt,
     World (<[df := map (fun r => with_fields cols (rec r) (F r)) rows]> m) lg).
Proof.
  intros Hcols. unfold df_attach. destruct rows as [| r0 rows'].
  - reflexivity.
  - change (columns (map rec (r0 :: rows'))) with (map fst (rec r0)).
    rewrite Hcols. apply df_attach_cols_run.
Qed.

Section LexicalOnly.

Import SentimentPipeline.

Variable float_repr : float -> string.
Variable va : VaderAnalyzer.t.

Ltac run_step lem := erewrite bind_ok; [| apply lem].

Lemma with_fields_vader (t : string) (r : row) :
  with_fields vader_cols (VaderAnalyzer.analyze va t) r
  = <["vader_label" :=
        PyStr (VaderAnalyzer._compound_to_label
                 (VaderAnalyzer.compound (VaderAnalyzer.polarity_scores va t)))]>
    (<["vader_neutral" := PyFloat (VaderAnalyzer.neu (VaderAnalyzer.polarity_scores va t))]>
    (<["vader_negative" := PyFloat (VaderAnalyzer.neg (VaderAnalyzer.polarity_scores va t))]>
    (<["vader_positive" := PyFloat (VaderAnalyzer.pos (VaderAnalyzer.polarity_scores va t))]>
    (<["vader_compound" :=
         PyFloat (VaderAnalyzer.compound (VaderAnalyzer.polarity_scores va t))]> r)))).
Proof. reflexivity. Qed.

Lemma ensemble_label_lexical (r : row) (v : pyval) :
  r !! "vader_label" = Some v ->
  _ensemble_label (Make va None) r = Ok v.
Proof. intros H. unfold _ensemble_label, getitem. simpl. rewrite H. reflexivity. Qed.

Lemma ensemble_score_lexical (r : row) (c : float) :
  r !! "vader_compound" = Some (PyFloat c) ->
  _ensemble_score (Make va None) r = Ok (PyFloat (norm01 c)).
Proof. intros H. unfold _ensemble_score, getitem. rewrite H. reflexivity. Qed.

(** A run of the lexical-only pipeline: the input frame is copied to a
    fresh reference, and every row of the copy is enriched by
    [lexical_row]; the store is otherwise unchanged. *)
Lemma analyze_dataframe_lexical (df : nat) (show_progress : bool) (w : world) (rows : frame) :
  frames w !! df = Some rows ->
  analyze_dataframe float_repr (Make va None) df show_progress w
  = (Ok (fresh (dom (frames w))),
     World (<[fresh (dom (frames w)) := map (lexical_row float_repr va) rows]> (frames w))
           (log w ++ lexical_log)).
Proof.
  intros Hdf. destruct w as [m lg]. simpl in *.
  unfold analyze_dataframe.
  erewrite bind_ok; cycle 1.
  { unfold df_copy. erewrite bind_ok; cycle 1.
    { unfold deref. simpl. rewrite Hdf. reflexivity. }
    unfold alloc. simpl. rewrite <- (map_id rows) at 1. reflexivity. }
  set (df' := fresh (dom m)). unfold enrich.
  run_step logger_run.
  erewrite bind_ok; cycle 1.
  { apply df_apply_run with (h := fun r => PyStr (clean_of float_repr r)).
    intros r. reflexivity. }
  run_step df_setitem_run.
  run_step logger_run.
  erewrite bind_ok; cycle 1.
  { apply df_getitem_run with (h := fun r => PyStr (clean_of float_repr r)).
    intros r. apply lookup_insert_eq. }
  erewrite bind_ok; cycle 1.
  { unfold lift. rewrite (traverse_map as_str _ (clean_of float_repr) rows) by reflexivity.
    reflexivity. }
  rewrite map_map.
  erewrite bind_ok; cycle 1.
  { apply df_attach_run with (cols := vader_cols). intros r. reflexivity. }
  cbn [roberta].
  run_step logger_run.
  erewrite bind_ok; cycle 1.
  { apply df_apply_run
      with (h := fun r => PyStr (VaderAnalyzer._compound_to_label
                 (VaderAnalyzer.compound
                    (VaderAnalyzer.polarity_scores va (clean_of float_repr r))))).
    intros r. apply ensemble_label_lexical.
    rewrite with_fields_vader. apply lookup_insert_eq. }
  run_step df_setitem_run.
  erewrite bind_ok; cycle 1.
  { apply df_apply_run
      with (h := fun r => PyFloat (norm01
                 (VaderAnalyzer.compound
                    (VaderAnalyzer.polarity_scores va (clean_of float_repr r))))).
    intros r. apply ensemble_score_lexical.
    cbv beta. rewrite with_fields_vader. rewrite !lookup_insert_ne by discriminate.
    apply lookup_insert_eq. }
  run_step df_setitem_run.
  rewrite <- !app_assoc. reflexivity.
Qed.


(** C7: when the construction of the contextual scorer raises, [__init__]
    still returns a pipeline, logs one warning and leaves [roberta] unset;
    every run of that pipeline on a frame with at least one record
    succeeds, attaches no field besides the
    clean text, the lexical fields and the final fields, and takes the
    final label and score from the lexical result alone. *)
Theorem C7_degrades_to_lexical_only (e : exn) (w : world) :
  exists self msg,
    __init__ va (Raise e) true w
    = (Ok self, World (frames w) (log w ++ [("WARNING", msg)]))
    /\ roberta self = None
    /\ forall (df : nat) (rows : frame) (show_progress : bool) (w1 : world),
         frames w1 !! df = Some rows -> rows <> [] ->
         exists df' w2 out,
           analyze_dataframe float_repr self df show_progress w1 = (Ok df', w2)
           /\ frames w2 !! df' = Some out
           /\ length out = length rows
           /\ forall i (r : row),
                rows !! i = Some r ->
                exists r' : row,
                  out !! i = Some r'
                  /\ (forall k : string, k ∉ lexical_fields -> r' !! k = r !! k)
                  /\ (forall k : string, k ∈ roberta_cols -> r' !! k = r !! k)
                  /\ (let c := VaderAnalyzer.compound
                                  (VaderAnalyzer.polarity_scores va
                                     (clean_of float_repr r)) in
                      r' !! "clean_text" = Some (PyStr (clean_of float_repr r))
                      /\ r' !! "vader_compound" = Some (PyFloat c)
                      /\ r' !! "vader_label"
                            = Some (PyStr (VaderAnalyzer._compound_to_label c))
                         /\ r' !! "final_label"
                            = Some (PyStr (VaderAnalyzer._compound_to_label c))
                         /\ r' !! "final_score" = Some (PyFloat ((c + 1) / 2)%float)).
Proof.
  destruct e as [cls msg].
  exists (Make va None), ("RoBERTa unavailable, using VADER only: " +:+ msg).
  split; [reflexivity | split; [reflexivity |]].
  intros df rows show_progress w1 Hdf _.
  eexists _, _, _. split; [apply (analyze_dataframe_lexical _ _ _ _ Hdf) |].
  split; [apply lookup_insert_eq |]. split; [apply length_map |].
  intros i r Hi. exists (lexical_row float_repr va r).
  split; [rewrite list_lookup_fmap, Hi; reflexivity |].
  assert (Hkeep : forall k : string, k ∉ lexical_fields ->
                    lexical_row float_repr va r !! k = r !! k).
  { intros k Hk. unfold lexical_row, lexical_fields in *.
    rewrite !lookup_insert_ne;
      [reflexivity | intros <-; apply Hk; rewrite !elem_of_cons; auto 20 ..]. }
  split; [exact Hkeep |]. split.
  - intros k Hk. apply Hkeep. unfold roberta_cols, lexical_fields in *.
    rewrite !elem_of_cons, elem_of_nil in Hk. rewrite !elem_of_cons, elem_of_nil.
    intros Hin.
    repeat (destruct Hk as [-> | Hk];
            [repeat (destruct Hin as [Hin | Hin]; [discriminate |]); exact Hin |]).
    exact Hk.
  - unfold lexical_row. repeat split.
    + rewrite !lookup_insert_ne by discriminate. apply lookup_insert_eq.
    + rewrite !lookup_insert_ne by discriminate. apply lookup_insert_eq.
    + rewrite !lookup_insert_ne by discriminate. apply lookup_insert_eq.
    + rewrite !lookup_insert_ne by discriminate. apply lookup_insert_eq.
    + apply lookup_insert_eq.
Qed.

(** C8, evaluated at a record whose text is null: [str()] turns the null
    into the text [None] (or [nan]) before the preprocessor sees it, so the
    clean text is that word and not the empty string. *)
Theorem C8_null_text_is_not_cleaned_to_empty :
  let r1 : row := {[ "text" := PyNone; "platform" := PyStr "twitter" ]} in
  let r2 : row := {[ "text" := PyFloat nan; "platform" := PyStr "twitter" ]} in
  let w0 := World {[ 0 := [r1; r2] ]} [] in
  exists df' w' (r1' r2' : row),
    analyze_dataframe float_repr (Make va None) 0 false w0 = (Ok df', w')
    /\ frames w' !! df' = Some [r1'; r2']
    /\ r1' !! "clean_text" = Some (PyStr "None")
    /\ r2' !! "clean_text" = Some (PyStr "nan").
Proof.
  intros r1 r2 w0.
  eexists _, _, _, _. split; [apply (analyze_dataframe_lexical 0 false w0 [r1; r2]) |].
  - apply lookup_insert_eq.
  - split; [apply lookup_insert_eq |].
    unfold lexical_row. split.
    + rewrite !lookup_insert_ne by discriminate. rewrite lookup_insert_eq.
      vm_compute. reflexivity.
    + rewrite !lookup_insert_ne by discriminate. rewrite lookup_insert_eq.
      vm_compute. reflexivity.
Qed.

End LexicalOnly.

(** ** The caller's frame *)

Section Hoare.

Variable I : gmap nat frame -> Prop.

Lemma hoare_ret {A} (a : A) (Q : A -> Prop) : Q a -> hoare I (mret a) Q.
Proof. intros HQ w HI. split; [exact HI |]. intros a' [= <-]. exact HQ. Qed.

Lemma hoare_bind {A B} (c : M A) (f : A -> M B) (Q1 : A -> Prop) (Q2 : B -> Prop) :
  hoare I c Q1 -> (forall a, Q1 a -> hoare I (f a) Q2) -> hoare I (c ≫= f) Q2.
Proof.
  intros Hc Hf w HI. destruct (Hc w HI) as [HI' HQ].
  unfold mbind, M_bind. destruct (c w) as [[a | e] w']; simpl in *.
  - apply (Hf a (HQ a eq_refl) w' HI').
  - split; [exact HI' | discriminate].
Qed.

Lemma hoare_seq {A B} (c : M A) (f : A -> M B) (Q : B -> Prop) :
  hoare I c (fun _ => True) -> (forall a, hoare I (f a) Q) -> hoare I (c ≫= f) Q.
Proof. intros Hc Hf. apply (hoare_bind c f _ Q Hc). intros a _. apply Hf. Qed.

Lemma hoare_pure {A} (c : M A) (Q : A -> Prop) :
  (forall w, (c w).2 = w) -> (forall w a, (c w).1 = Ok a -> Q a) -> hoare I c Q.
Proof. intros Hw HQ w HI. rewrite Hw. split; [exact HI | apply HQ]. Qed.

Lemma hoare_lift {A} (o : outcome A) (Q : A -> Prop) :
  (forall a, o = Ok a -> Q a) -> hoare I (lift o) Q.
Proof. intros HQ. apply hoare_pure; [reflexivity | intros w a; apply HQ]. Qed.

Lemma hoare_logger (level msg : string) : hoare I (logger level msg) (fun _ => True).
Proof. intros w HI. split; [exact HI | trivial]. Qed.

Lemma deref_world (df : nat) (w : world) : (deref df w).2 = w.
Proof. unfold deref. destruct (frames w !! df); reflexivity. Qed.

Lemma df_apply_world {A} (df : nat) (f : row -> outcome A) (w : world) :
  (df_apply df f w).2 = w.
Proof.
  unfold df_apply, mbind, M_bind, deref, lift.
  destruct (frames w !! df); reflexivity.
Qed.

Lemma hoare_apply {A} (df : nat) (f : row -> outcome A) :
  hoare I (df_apply df f) (fun _ => True).
Proof. apply hoare_pure; [apply df_apply_world | trivial]. Qed.

Lemma hoare_getitem (df : nat) (col : string) : hoare I (df_getitem df col) (fun _ => True).
Proof. apply hoare_apply. Qed.

End Hoare.

Lemma extends_refl (r : row) : extends r r.
Proof. intros k _. reflexivity. Qed.

Lemma extends_insert (r r' : row) (col : string) (v : pyval) :
  col ∈ derived_fields -> extends r r' -> extends r (<[col := v]> r').
Proof.
  intros Hcol Hext k Hk. rewrite lookup_insert_ne; [apply Hext, Hk |].
  intros ->. exact (Hk Hcol).
Qed.

Lemma extends_zip (col : string) (rows out : frame) :
  col ∈ derived_fields ->
  Forall2 extends rows out ->
  forall values : list pyval,
    length values = length out ->
    Forall2 extends rows (zip_with (fun r v => <[col := v]> r) out values).
Proof.
  intros Hcol H. induction H as [| r r' rows out Hr _ IH]; intros values Hlen.
  - constructor.
  - destruct values as [| v values]; [discriminate |]. simpl.
    constructor; [apply extends_insert; assumption | apply IH].
    simpl in Hlen. lia.
Qed.

Section CopyInvariant.

Variables (df' : nat) (m0 : gmap nat frame) (rows : frame).

Local Abbreviation Inv := (copy_inv df' m0 rows).

Lemma hoare_setitem (col : string) (values : list pyval) :
  col ∈ derived_fields ->
  hoare Inv (df_setitem df' col values) (fun _ => True).
Proof.
  intros Hcol w [Hother (out & Hout & Hext)].
  unfold df_setitem, mbind, M_bind, deref. rewrite Hout.
  destruct (decide (length values = length out)) as [Hlen | Hlen]; simpl.
  - split; [| trivial]. split.
    + intros l Hl. rewrite lookup_insert_ne by congruence. apply Hother, Hl.
    + eexists. split; [apply lookup_insert_eq |].
      apply extends_zip; assumption.
  - split; [| discriminate]. split; [exact Hother | eauto].
Qed.

Lemma hoare_attach_cols (records : list dict) (cols : list string) :
  Forall (fun c => c ∈ derived_fields) cols ->
  hoare Inv (df_attach_cols df' cols records) (fun _ => True).
Proof.
  induction 1 as [| col cols Hcol _ IH]; simpl.
  - apply hoare_ret. trivial.
  - apply hoare_seq; [apply hoare_setitem, Hcol | intros _; exact IH].
Qed.

Lemma hoare_attach (records : list dict) :
  Forall (fun c => c ∈ derived_fields) (columns records) ->
  hoare Inv (df_attach df' records) (fun _ => True).
Proof. apply hoare_attach_cols. Qed.

End CopyInvariant.

Lemma derived_vader : Forall (fun c => c ∈ derived_fields) vader_cols.
Proof. apply (bool_decide_unpack _). vm_compute. exact I. Qed.

Lemma derived_roberta : Forall (fun c => c ∈ derived_fields) roberta_cols.
Proof. apply (bool_decide_unpack _). vm_compute. exact I. Qed.

Lemma derived_known :
  "clean_text" ∈ derived_fields /\ "final_label" ∈ derived_fields
  /\ "final_score" ∈ derived_fields.
Proof. apply (bool_decide_unpack _). vm_compute. exact I. Qed.

Lemma columns_vader (va : VaderAnalyzer.t) (texts : list string) :
  Forall (fun c => c ∈ derived_fields) (columns (map (VaderAnalyzer.analyze va) texts)).
Proof. destruct texts; [constructor | exact derived_vader]. Qed.

Lemma columns_roberta (ra : RobertaAnalyzer.t) (texts : list string) (size : Z)
    (results : list dict) :
  RobertaAnalyzer.analyze_batch ra texts size = Ok results ->
  Forall (fun c => c ∈ derived_fields) (columns results).
Proof.
  unfold RobertaAnalyzer.analyze_batch.
  destruct (RobertaAnalyzer.range (length texts) size) as [starts | e]; [| discriminate].
  intros [= <-].
  induction starts as [| i starts IH]; simpl; [constructor |].
  unfold RobertaAnalyzer.score_chunk at 1.
  destruct (map (RobertaAnalyzer.softmax ra) _) as [| sc scs]; simpl.
  - exact IH.
  - exact derived_roberta.
Qed.

Section NoMutation.

Import SentimentPipeline.

Variable float_repr : float -> string.
Variable self : SentimentPipeline.t.

(** The steps on the copy keep the invariant of the copy, and return the
    reference of the copy. *)
Lemma enrich_hoare (df' : nat) (m0 : gmap nat frame) (rows : frame) :
  hoare (copy_inv df' m0 rows) (enrich float_repr self df') (fun a => a = df').
Proof.
  unfold enrich.
  destruct derived_known as (Hclean & Hlabel & Hscore).
  apply hoare_seq; [apply hoare_logger | intros _].
  apply hoare_seq; [apply hoare_apply | intros clean].
  apply hoare_seq; [apply hoare_setitem, Hclean | intros _].
  apply hoare_seq; [apply hoare_logger | intros _].
  apply hoare_seq; [apply hoare_getitem | intros cells].
  apply hoare_seq; [apply hoare_lift; trivial | intros texts].
  apply hoare_seq; [apply hoare_attach, columns_vader | intros _].
  apply hoare_seq.
  { destruct (roberta self) as [ra |]; [| apply hoare_logger].
    apply hoare_seq; [apply hoare_logger | intros _].
    apply hoare_seq; [apply hoare_getitem | intros cells'].
    apply hoare_seq; [apply hoare_lift; trivial | intros texts'].
    eapply hoare_bind.
    - apply hoare_lift with (Q := fun results =>
        Forall (fun c => c ∈ derived_fields) (columns results)).
      intros results. apply columns_roberta.
    - intros results Hres. apply hoare_attach, Hres. }
  intros _.
  apply hoare_seq; [apply hoare_apply | intros labels].
  apply hoare_seq; [apply hoare_setitem, Hlabel | intros _].
  apply hoare_seq; [apply hoare_apply | intros scores].
  apply hoare_seq; [apply hoare_setitem, Hscore | intros _].
  apply hoare_ret. reflexivity.
Qed.

(** C10: [analyze_dataframe] leaves the caller's frame, and every other
    frame of the store, exactly as it was, whether it returns or raises;
    the frame it returns is a new object whose rows are the caller's rows
    with derived fields added. *)
Theorem C10_input_frame_not_mutated (df : nat) (show_progress : bool) (w : world)
    (rows : frame) :
  frames w !! df = Some rows ->
  let run := analyze_dataframe float_repr self df show_progress w in
  frames run.2 !! df = Some rows
  /\ (forall l, is_Some (frames w !! l) -> frames run.2 !! l = frames w !! l)
  /\ (forall df', run.1 = Ok df' ->
        frames w !! df' = None
        /\ exists out, frames run.2 !! df' = Some out /\ Forall2 extends rows out).
Proof.
  intros Hdf run.
  set (df' := fresh (dom (frames w))).
  assert (Hfresh : frames w !! df' = None).
  { apply not_elem_of_dom. apply is_fresh. }
  set (w1 := World (<[df' := rows]> (frames w)) (log w)).
  assert (HI : copy_inv df' (frames w) rows (frames w1)).
  { split.
    - intros l Hl. simpl. apply lookup_insert_ne. congruence.
    - exists rows. split; [apply lookup_insert_eq |].
      apply Forall2_same_length_lookup_2; [reflexivity |].
      intros i r r' Hr Hr'. rewrite Hr in Hr'. injection Hr' as <-. apply extends_refl. }
  destruct (enrich_hoare df' (frames w) rows w1 HI) as [[Hother Hcopy] Hret].
  assert (Hrun : run = enrich float_repr self df' w1).
  { unfold run, analyze_dataframe. apply bind_ok.
    unfold df_copy. erewrite bind_ok; [| unfold deref; rewrite Hdf; reflexivity].
    reflexivity. }
  rewrite Hrun.
  assert (Hkeep : forall l, is_Some (frames w !! l) ->
            frames (enrich float_repr self df' w1).2 !! l = frames w !! l).
  { intros l [f Hl]. apply Hother. intros ->. congruence. }
  split; [rewrite Hkeep by eauto; exact Hdf |].
  split; [exact Hkeep |].
  intros a Ha. rewrite (Hret a Ha). split; [exact Hfresh | exact Hcopy].
Qed.

End NoMutation.

(** ** Substitution *)

Section Substitution.

Import Re.

Variables (icase : bool) (r : regex) (tmpl : list ritem).

(** Every match of the pattern consumes at least one character. *)
Hypothesis consumes :
  forall b s st, match_at icase r b s = Some st -> length (input st) < length s.

Lemma sub_loop_fuel (n n' : nat) :
  forall b s, length s < n -> length s < n' ->
    sub_loop n icase r tmpl b s = sub_loop n' icase r tmpl b s.
Proof.
  revert n'. induction n as [| n IH]; intros n' b s Hn Hn'; [lia |].
  destruct n' as [| n']; [lia |]. simpl.
  destruct (match_at icase r b s) as [st |] eqn:Hm.
  - pose proof (consumes _ _ _ Hm) as Hlt.
    destruct (Nat.ltb_spec (length (input st)) (length s)) as [_ | ?]; [| lia].
    f_equal. apply IH; lia.
  - destruct s as [| c s']; [reflexivity |]. f_equal. simpl in *. apply IH; lia.
Qed.

Lemma sub_at_match (b : bool) (s : text) (st : mstate) :
  match_at icase r b s = Some st ->
  sub_at icase r tmpl b s = expand tmpl (grp1 st) ++ sub_at icase r tmpl false (input st).
Proof.
  intros Hm. unfold sub_at at 1. cbn [sub_loop]. rewrite Hm.
  pose proof (consumes _ _ _ Hm) as Hlt.
  destruct (Nat.ltb_spec (length (input st)) (length s)) as [_ | ?]; [| lia].
  f_equal. unfold sub_at. apply sub_loop_fuel; lia.
Qed.

Lemma sub_at_skip (b : bool) (c : ascii) (s : text) :
  match_at icase r b (c :: s) = None ->
  sub_at icase r tmpl b (c :: s) = c :: sub_at icase r tmpl false s.
Proof.
  intros Hm. unfold sub_at at 1. cbn [sub_loop]. rewrite Hm. reflexivity.
Qed.

Lemma sub_at_nil (b : bool) : sub_at icase r tmpl b [] = [].
Proof.
  unfold sub_at. cbn [sub_loop].
  destruct (match_at icase r b []) as [st |] eqn:Hm; [| reflexivity].
  apply consumes in Hm. simpl in Hm. lia.
Qed.

(** A text no position of which starts a match is left as it is. *)
Lemma sub_at_no_match (s : text) :
  (forall b c t, In c s -> match_at icase r b (c :: t) = None) ->
  forall b, sub_at icase r tmpl b s = s.
Proof.
  induction s as [| c s IH]; intros H b.
  - apply sub_at_nil.
  - rewrite sub_at_skip by (apply H; left; reflexivity).
    f_equal. apply IH. intros b' c' t Hin. apply H. right. exact Hin.
Qed.

(** A prefix no position of which starts a match is copied. *)
Lemma sub_at_prefix (pre t : text) :
  (forall b c u, In c pre -> match_at icase r b (c :: u) = None) ->
  forall b, pre <> [] ->
    sub_at icase r tmpl b (pre ++ t) = pre ++ sub_at icase r tmpl false t.
Proof.
  induction pre as [| c pre IH]; intros H b Hne; [congruence |].
  change ((c :: pre) ++ t) with (c :: (pre ++ t)).
  rewrite sub_at_skip by (apply H; left; reflexivity).
  simpl. f_equal. destruct pre as [| c' pre'].
  - reflexivity.
  - apply IH; [| discriminate]. intros b' x u Hin. apply H. right. exact Hin.
Qed.

(** Matching is local: before [v], a match attempt sees what it sees when
    the text ends there. *)
Variable v : text.

Hypothesis local_match :
  forall b u, u <> [] -> match_at icase r b (u ++ v) = extend v (match_at icase r b u).

Lemma sub_at_app_ne (u : text) :
  forall b, u <> [] ->
    sub_at icase r tmpl b (u ++ v)
    = sub_at icase r tmpl b u ++ sub_at icase r tmpl false v.
Proof.
  remember (length u) as n eqn:Hn. revert u Hn.
  induction n as [n IH] using lt_wf_ind. intros u Hn b Hu.
  assert (Hrec : forall u', length u' < n ->
            sub_at icase r tmpl false (u' ++ v)
            = sub_at icase r tmpl false u' ++ sub_at icase r tmpl false v).
  { intros u' Hlt. destruct u' as [| c' u''].
    - rewrite sub_at_nil. reflexivity.
    - apply (IH (length (c' :: u'')) Hlt _ eq_refl). discriminate. }
  pose proof (local_match b u Hu) as Hloc.
  destruct (match_at icase r b u) as [st |] eqn:Hm; simpl in Hloc.
  - rewrite (sub_at_match _ _ _ Hloc), (sub_at_match _ _ _ Hm). simpl.
    rewrite Hrec by (apply consumes in Hm; lia).
    rewrite app_assoc. reflexivity.
  - destruct u as [| c u']; [congruence |].
    change ((c :: u') ++ v) with (c :: (u' ++ v)) in *.
    rewrite (sub_at_skip _ _ _ Hloc), (sub_at_skip _ _ _ Hm).
    rewrite Hrec by (subst n; simpl; lia). reflexivity.
Qed.

End Substitution.

(** For a pattern without [^], the start of the string plays no role. *)
Lemma sub_at_any_bos (icase : bool) (r : Re.regex) (tmpl : list Re.ritem) :
  (forall b s st, Re.match_at icase r b s = Some st -> length (Re.input st) < length s) ->
  (forall b s, Re.match_at icase r b s = Re.match_at icase r false s) ->
  forall b s, sub_at icase r tmpl b s = sub_at icase r tmpl false s.
Proof.
  intros Hcons Hbos b s.
  destruct (Re.match_at icase r b s) as [st |] eqn:Hm.
  - rewrite (sub_at_match _ _ _ Hcons _ _ _ Hm).
    rewrite Hbos in Hm. rewrite (sub_at_match _ _ _ Hcons _ _ _ Hm). reflexivity.
  - destruct s as [| c s]; [rewrite !sub_at_nil by exact Hcons; reflexivity |].
    rewrite (sub_at_skip _ _ _ _ _ _ Hm).
    rewrite Hbos in Hm. rewrite (sub_at_skip _ _ _ _ _ _ Hm). reflexivity.
Qed.

(** A pattern that matches nowhere but at the start of the string leaves
    the rest of the text as it is. *)
Lemma sub_at_false_id (icase : bool) (r : Re.regex) (tmpl : list Re.ritem) :
  (forall b s st, Re.match_at icase r b s = Some st -> length (Re.input st) < length s) ->
  (forall s, Re.match_at icase r false s = None) ->
  forall s, sub_at icase r tmpl false s = s.
Proof.
  intros Hcons Hnone. induction s as [| c s IH].
  - apply sub_at_nil, Hcons.
  - rewrite sub_at_skip by apply Hnone. rewrite IH. reflexivity.
Qed.

(** Substitution splits at a point no match can cross. *)
Lemma sub_at_app (icase : bool) (r : Re.regex) (tmpl : list Re.ritem) (v : text) :
  (forall b s st, Re.match_at icase r b s = Some st -> length (Re.input st) < length s) ->
  (forall b s, Re.match_at icase r b s = Re.match_at icase r false s) ->
  (forall b u, u <> [] ->
     Re.match_at icase r b (u ++ v) = extend v (Re.match_at icase r b u)) ->
  forall b u,
    sub_at icase r tmpl b (u ++ v) = sub_at icase r tmpl b u ++ sub_at icase r tmpl b v.
Proof.
  intros Hcons Hbos Hloc b u. destruct u as [| c u].
  - rewrite sub_at_nil by exact Hcons. reflexivity.
  - rewrite (sub_at_app_ne _ _ _ Hcons v Hloc) by discriminate.
    rewrite (sub_at_any_bos _ _ _ Hcons Hbos b v). reflexivity.
Qed.

(** ** The patterns of the preprocessor *)

Lemma skip_length (p : ascii -> bool) (t : text) : length (skip p t) <= length t.
Proof.
  induction t as [| c t IH]; simpl; [lia |].
  destruct (p c); simpl; lia.
Qed.

Lemma skip_app (p : ascii -> bool) (t v : text) :
  starts_with p v = false -> skip p (t ++ v) = skip p t ++ v.
Proof.
  intros Hv. induction t as [| c t IH]; simpl.
  - destruct v as [| x v']; [reflexivity |]. simpl in *. rewrite Hv. reflexivity.
  - destruct (p c); [exact IH | reflexivity].
Qed.

Lemma skip_run (p : ascii -> bool) (w t : text) :
  forallb p w = true -> skip p (w ++ t) = skip p t.
Proof.
  induction w as [| c w IH]; simpl; [reflexivity |].
  destruct (p c); simpl; [exact IH | discriminate].
Qed.

Lemma skip_stop (p : ascii -> bool) (t : text) : starts_with p t = false -> skip p t = t.
Proof. destruct t as [| c t]; simpl; [reflexivity | intros ->; reflexivity]. Qed.

Lemma skip_take (p : ascii -> bool) (w t : text) :
  forallb p w = true -> starts_with p t = false ->
  take (length (w ++ t) - length (skip p (w ++ t))) (w ++ t) = w.
Proof.
  intros Hw Ht. rewrite (skip_run p w t Hw), (skip_stop p t Ht).
  rewrite length_app. replace (length w + length t - length t) with (length w) by lia.
  apply take_app_length.
Qed.

(** The greedy [+]: the longest run is tried first, and kept when the
    rest of the pattern accepts what follows. *)
Lemma plus_loop_greedy (p : ascii -> bool) (g : option text)
    (k : Re.mstate -> option Re.mstate) (res : Re.mstate) :
  forall (t : text) (c : ascii),
    p c = true ->
    k (Re.MState false g (skip p t)) = Some res ->
    Re.plus_loop p g (c :: t) k = Some res.
Proof.
  induction t as [| c' t IH]; intros c Hc Hk; simpl in *; rewrite Hc.
  - exact Hk.
  - destruct (p c') eqn:Hc'.
    + specialize (IH c' Hc' Hk). simpl in IH. rewrite Hc' in IH. rewrite IH. reflexivity.
    + exact Hk.
Qed.

(** When the rest of the pattern rejects every text that starts with a
    [p]-character, giving back characters of the run cannot help. *)
Lemma plus_loop_longest (p : ascii -> bool) (g : option text)
    (k : Re.mstate -> option Re.mstate) :
  (forall x t, p x = true -> k (Re.MState false g (x :: t)) = None) ->
  forall (t : text) (c : ascii),
    p c = true ->
    Re.plus_loop p g (c :: t) k = k (Re.MState false g (skip p t)).
Proof.
  intros Hrej. induction t as [| c' t IH]; intros c Hc; simpl in *; rewrite Hc.
  - reflexivity.
  - destruct (p c') eqn:Hc'.
    + specialize (IH c' Hc'). simpl in IH. rewrite Hc' in IH. rewrite IH.
      destruct (k (Re.MState false g (skip p t))) eqn:Hk; [reflexivity |].
      apply Hrej, Hc'.
    + reflexivity.
Qed.

Section Patterns.

Import Re TextPreprocessor.

(** What one attempt of [@\w+] does. *)
Lemma mention_match_at (b : bool) (s : text) :
  match_at false _MENTION_RE b s
  = match s with
    | a :: c :: t =>
        if Ascii.eqb "@" a && is_word c
        then Some (MState false None (skip is_word t))
        else None
    | _ => None
    end.
Proof.
  unfold match_at, _MENTION_RE. cbn [run input grp1 chr_eq].
  destruct s as [| a [| c t]]; [reflexivity | |].
  - destruct (Ascii.eqb "@" a); reflexivity.
  - destruct (Ascii.eqb "@" a); [| reflexivity]. simpl andb.
    destruct (is_word c) eqn:Hc.
    + apply plus_loop_greedy; [exact Hc | reflexivity].
    + simpl. rewrite Hc. reflexivity.
Qed.

(** What one attempt of [#(\w+)] does: group 1 is the word. *)
Lemma hashtag_match_at (b : bool) (s : text) :
  match_at false _HASHTAG_RE b s
  = match s with
    | a :: c :: t =>
        if Ascii.eqb "#" a && is_word c
        then Some (MState false
                     (Some (take (length (c :: t) - length (skip is_word t)) (c :: t)))
                     (skip is_word t))
        else None
    | _ => None
    end.
Proof.
  unfold match_at, _HASHTAG_RE. cbn [run input grp1 chr_eq at_bos].
  destruct s as [| a [| c t]]; [reflexivity | |].
  - destruct (Ascii.eqb "#" a); reflexivity.
  - destruct (Ascii.eqb "#" a); [| reflexivity]. simpl andb.
    destruct (is_word c) eqn:Hc.
    + apply plus_loop_greedy; [exact Hc | reflexivity].
    + simpl. rewrite Hc. reflexivity.
Qed.

(** What one attempt of [&\w+;] does. *)
Lemma entity_match_at (b : bool) (s : text) :
  match_at false _HTML_ENTITY_RE b s
  = match s with
    | a :: c :: t =>
        if Ascii.eqb "&" a && is_word c
        then match skip is_word t with
             | x :: t' => if Ascii.eqb ";" x then Some (MState false None t') else None
             | [] => None
             end
        else None
    | _ => None
    end.
Proof.
  unfold match_at, _HTML_ENTITY_RE. cbn [run input grp1 chr_eq].
  destruct s as [| a [| c t]]; [reflexivity | |].
  - destruct (Ascii.eqb "&" a); reflexivity.
  - destruct (Ascii.eqb "&" a); [| reflexivity]. simpl andb.
    destruct (is_word c) eqn:Hc.
    + rewrite plus_loop_longest; [reflexivity | | exact Hc].
      intros x t' Hx. cbn [input].
      destruct (Ascii.eqb_spec ";" x) as [<- | _]; [discriminate Hx | reflexivity].
    + simpl. rewrite Hc. reflexivity.
Qed.

Lemma mention_match_nobos b s :
  match_at false _MENTION_RE b s = match_at false _MENTION_RE false s.
Proof. rewrite !mention_match_at. reflexivity. Qed.

Lemma hashtag_match_nobos b s :
  match_at false _HASHTAG_RE b s = match_at false _HASHTAG_RE false s.
Proof. rewrite !hashtag_match_at. reflexivity. Qed.

Lemma entity_match_nobos b s :
  match_at false _HTML_ENTITY_RE b s = match_at false _HTML_ENTITY_RE false s.
Proof. rewrite !entity_match_at. reflexivity. Qed.

Lemma mention_consumes b s st :
  match_at false _MENTION_RE b s = Some st -> length (input st) < length s.
Proof.
  rewrite mention_match_at. destruct s as [| a [| c t]]; try discriminate.
  destruct (_ && _); [| discriminate]. intros [= <-]. simpl.
  pose proof (skip_length is_word t). lia.
Qed.

Lemma hashtag_consumes b s st :
  match_at false _HASHTAG_RE b s = Some st -> length (input st) < length s.
Proof.
  rewrite hashtag_match_at. destruct s as [| a [| c t]]; try discriminate.
  destruct (_ && _); [| discriminate]. intros [= <-]. simpl.
  pose proof (skip_length is_word t). lia.
Qed.

Lemma entity_consumes b s st :
  match_at false _HTML_ENTITY_RE b s = Some st -> length (input st) < length s.
Proof.
  rewrite entity_match_at. destruct s as [| a [| c t]]; try discriminate.
  destruct (_ && _); [| discriminate].
  pose proof (skip_length is_word t) as Hlen.
  destruct (skip is_word t) as [| x t']; [discriminate |].
  destruct (Ascii.eqb ";" x); [| discriminate]. intros [= <-]. simpl in *. lia.
Qed.

Lemma mention_local (v : text) :
  starts_with is_word v = false ->
  forall b u, u <> [] ->
    match_at false _MENTION_RE b (u ++ v) = extend v (match_at false _MENTION_RE b u).
Proof.
  intros Hv b u Hu. rewrite !mention_match_at.
  destruct u as [| a [| c t]]; [congruence | |]; simpl.
  - destruct v as [| x v']; [reflexivity |]. simpl in Hv. rewrite Hv, andb_false_r.
    reflexivity.
  - destruct (_ && _); [| reflexivity]. simpl. rewrite (skip_app _ _ _ Hv). reflexivity.
Qed.

Lemma take_word_app (c : ascii) (t v : text) :
  starts_with is_word v = false ->
  take (length (c :: t ++ v) - length (skip is_word t ++ v)) (c :: t ++ v)
  = take (length (c :: t) - length (skip is_word t)) (c :: t).
Proof.
  intros _. pose proof (skip_length is_word t) as Hlen.
  simpl length. rewrite !length_app.
  replace (S (length t + length v) - (length (skip is_word t) + length v))
    with (S (length t) - length (skip is_word t)) by lia.
  change (c :: t ++ v) with ((c :: t) ++ v).
  apply take_app_le. simpl. lia.
Qed.

Lemma hashtag_local (v : text) :
  starts_with is_word v = false ->
  forall b u, u <> [] ->
    match_at false _HASHTAG_RE b (u ++ v) = extend v (match_at false _HASHTAG_RE b u).
Proof.
  intros Hv b u Hu. rewrite !hashtag_match_at.
  destruct u as [| a [| c t]]; [congruence | |]; simpl app; cbv beta iota.
  - destruct v as [| x v']; [reflexivity |]. simpl in Hv. simpl. rewrite Hv, andb_false_r.
    reflexivity.
  - destruct (Ascii.eqb "#" a && is_word c); [| reflexivity].
    cbn [extend input grp1 at_bos].
    rewrite (skip_app _ _ _ Hv), (take_word_app c t v Hv). reflexivity.
Qed.

Lemma entity_local (v : text) :
  starts_with is_word v = false ->
  starts_with (Ascii.eqb ";") v = false ->
  forall b u, u <> [] ->
    match_at false _HTML_ENTITY_RE b (u ++ v)
    = extend v (match_at false _HTML_ENTITY_RE b u).
Proof.
  intros Hv Hsemi b u Hu. rewrite !entity_match_at.
  destruct u as [| a [| c t]]; [congruence | |]; simpl app; cbv beta iota.
  - destruct v as [| x v']; [reflexivity |]. simpl in Hv. simpl. rewrite Hv, andb_false_r.
    reflexivity.
  - destruct (Ascii.eqb "&" a && is_word c); [| reflexivity]. rewrite (skip_app _ _ _ Hv).
    destruct (skip is_word t) as [| x t']; cbn [app].
    + destruct v as [| y v']; [reflexivity |]. cbn [starts_with] in Hsemi.
      rewrite Hsemi. reflexivity.
    + destruct (Ascii.eqb ";" x); reflexivity.
Qed.

Lemma expand_lit (t : text) (g : option text) : expand [RLit t] g = t.
Proof. unfold expand. simpl. apply app_nil_r. Qed.

Lemma expand_group (w : text) : expand [RGroup1] (Some w) = w.
Proof. unfold expand. simpl. apply app_nil_r. Qed.

(** Every mention becomes [@user], and nothing around it changes. *)
Lemma mentions_app (pre w post : text) :
  w <> [] -> forallb is_word w = true -> starts_with is_word post = false ->
  mentions (pre ++ "@"%char :: w ++ post)
  = mentions pre ++ to_text "@user" ++ mentions post.
Proof.
  intros Hne Hw Hpost. unfold mentions, sub_text.
  change (sub_loop (S (length ?s)) ?i ?r ?t ?b ?s) with (sub_at i r t b s).
  rewrite (sub_at_app false _MENTION_RE _ ("@"%char :: w ++ post)
             mention_consumes mention_match_nobos).
  2: { apply mention_local. reflexivity. }
  f_equal.
  destruct w as [| c w]; [congruence |]. simpl in Hw.
  apply andb_prop in Hw as [Hc Hw].
  rewrite (sub_at_match false _MENTION_RE _ mention_consumes true _
             (MState false None post)).
  - rewrite expand_lit. cbn [input].
    rewrite (sub_at_any_bos _ _ _ mention_consumes mention_match_nobos true post).
    reflexivity.
  - rewrite mention_match_at. cbn [app]. rewrite Hc.
    rewrite (skip_run _ _ _ Hw), (skip_stop _ _ Hpost). reflexivity.
Qed.

(** Every hashtag loses its [#] and keeps its word. *)
Lemma hashtags_app (pre w post : text) :
  w <> [] -> forallb is_word w = true -> starts_with is_word post = false ->
  hashtags (pre ++ "#"%char :: w ++ post) = hashtags pre ++ w ++ hashtags post.
Proof.
  intros Hne Hw Hpost. unfold hashtags, sub_text.
  change (sub_loop (S (length ?s)) ?i ?r ?t ?b ?s) with (sub_at i r t b s).
  rewrite (sub_at_app false _HASHTAG_RE _ ("#"%char :: w ++ post)
             hashtag_consumes hashtag_match_nobos).
  2: { apply hashtag_local. reflexivity. }
  f_equal.
  rewrite (sub_at_match false _HASHTAG_RE _ hashtag_consumes true _
             (MState false (Some w) post)).
  - cbn [input grp1]. rewrite expand_group.
    rewrite (sub_at_any_bos _ _ _ hashtag_consumes hashtag_match_nobos true post).
    reflexivity.
  - rewrite hashtag_match_at. destruct w as [| c w]; [congruence |].
    pose proof (skip_take is_word (c :: w) post Hw Hpost) as Htake.
    simpl in Hw. apply andb_prop in Hw as [Hc Hw].
    cbn [app skip] in *. rewrite Hc in *. rewrite Htake.
    rewrite (skip_run _ _ _ Hw), (skip_stop _ _ Hpost). reflexivity.
Qed.

(** Every [&word;] becomes one space, and nothing around it changes. *)
Lemma html_entities_app (pre w post : text) :
  w <> [] -> forallb is_word w = true ->
  html_entities (pre ++ "&"%char :: w ++ ";"%char :: post)
  = html_entities pre ++ to_text " " ++ html_entities post.
Proof.
  intros Hne Hw. unfold html_entities, sub_text.
  change (sub_loop (S (length ?s)) ?i ?r ?t ?b ?s) with (sub_at i r t b s).
  rewrite (sub_at_app false _HTML_ENTITY_RE _ ("&"%char :: w ++ ";"%char :: post)
             entity_consumes entity_match_nobos).
  2: { apply entity_local; reflexivity. }
  f_equal.
  rewrite (sub_at_match false _HTML_ENTITY_RE _ entity_consumes true _
             (MState false None post)).
  - rewrite expand_lit. cbn [input].
    rewrite (sub_at_any_bos _ _ _ entity_consumes entity_match_nobos true post).
    reflexivity.
  - rewrite entity_match_at. destruct w as [| c w]; [congruence |].
    simpl in Hw. apply andb_prop in Hw as [Hc Hw].
    cbn [app]. rewrite Hc. rewrite (skip_run _ _ _ Hw). reflexivity.
Qed.

(** A text without [&] has no entity, one without [@] no mention, one
    without [#] no hashtag: the substitution leaves it as it is. *)
Lemma html_entities_id (t : text) : ~ In "&"%char t -> html_entities t = t.
Proof.
  intros Hno. apply (sub_at_no_match false _HTML_ENTITY_RE _ entity_consumes).
  intros b c u Hin. rewrite entity_match_at.
  destruct u as [| x u]; [reflexivity |].
  destruct (Ascii.eqb_spec "&" c) as [<- | _]; [contradiction | reflexivity].
Qed.

(** An [&] that starts no entity stays, with the word characters after it:
    either no word character follows it, or what follows them is not [;]. *)
Lemma html_entities_keep (pre w post : text) :
  forallb is_word w = true -> starts_with is_word post = false ->
  w = [] \/ starts_with (Ascii.eqb ";") post = false ->
  html_entities (pre ++ "&"%char :: w ++ post)
  = html_entities pre ++ "&"%char :: w ++ html_entities post.
Proof.
  intros Hw Hpost Hsemi. unfold html_entities, sub_text.
  change (sub_loop (S (length ?s)) ?i ?r ?t ?b ?s) with (sub_at i r t b s).
  rewrite (sub_at_app false _HTML_ENTITY_RE _ ("&"%char :: w ++ post)
             entity_consumes entity_match_nobos).
  2: { apply entity_local; reflexivity. }
  f_equal.
  rewrite sub_at_skip.
  - f_equal. destruct w as [| c w].
    + reflexivity.
    + rewrite sub_at_prefix; [reflexivity | | discriminate].
      intros b x u Hin. rewrite entity_match_at.
      destruct u as [| y u]; [reflexivity |].
      destruct (Ascii.eqb_spec "&" x) as [<- | _]; [| reflexivity].
      rewrite forallb_forall in Hw. specialize (Hw _ Hin). discriminate Hw.
  - rewrite entity_match_at. destruct w as [| c w]; cbn [app].
    + destruct post as [| x post']; [reflexivity |].
      cbn [starts_with] in Hpost. rewrite Hpost, andb_false_r. reflexivity.
    + simpl in Hw. apply andb_prop in Hw as [Hc Hw]. rewrite Hc.
      rewrite (skip_run _ _ _ Hw), (skip_stop _ _ Hpost).
      destruct Hsemi as [? | Hsemi]; [discriminate |].
      destruct post as [| x post']; [reflexivity |].
      cbn [starts_with] in Hsemi. rewrite Hsemi. reflexivity.
Qed.

Lemma mentions_id (t : text) : ~ In "@"%char t -> mentions t = t.
Proof.
  intros Hno. apply (sub_at_no_match false _MENTION_RE _ mention_consumes).
  intros b c u Hin. rewrite mention_match_at.
  destruct u as [| x u]; [reflexivity |].
  destruct (Ascii.eqb_spec "@" c) as [<- | _]; [contradiction | reflexivity].
Qed.

Lemma hashtags_id (t : text) : ~ In "#"%char t -> hashtags t = t.
Proof.
  intros Hno. apply (sub_at_no_match false _HASHTAG_RE _ hashtag_consumes).
  intros b c u Hin. rewrite hashtag_match_at.
  destruct u as [| x u]; [reflexivity |].
  destruct (Ascii.eqb_spec "#" c) as [<- | _]; [contradiction | reflexivity].
Qed.

(** What one attempt of [^RT\s+] does under [re.IGNORECASE]. *)
Lemma rt_match_at (b : bool) (s : text) :
  match_at true _RT_RE b s
  = if b then
      match s with
      | x :: y :: c :: t =>
          if Ascii.eqb "r" (lower x) && Ascii.eqb "t" (lower y) && is_space c
          then Some (MState false None (skip is_space t))
          else None
      | _ => None
      end
    else None.
Proof.
  change _RT_RE with (Cat Bol (Cat (Cat (Lit "R") (Lit "T")) (Plus is_space))).
  unfold match_at. cbn [run input grp1 at_bos chr_eq].
  destruct b; [| reflexivity].
  change (lower "R") with "r"%char. change (lower "T") with "t"%char.
  destruct s as [| x [| y [| c t]]]; [reflexivity | | |].
  - destruct (Ascii.eqb "r" (lower x)); reflexivity.
  - destruct (Ascii.eqb "r" (lower x)); [| reflexivity].
    destruct (Ascii.eqb "t" (lower y)); reflexivity.
  - destruct (Ascii.eqb "r" (lower x)); [| reflexivity].
    destruct (Ascii.eqb "t" (lower y)); [| reflexivity]. simpl andb.
    destruct (is_space c) eqn:Hc.
    + apply plus_loop_greedy; [exact Hc | reflexivity].
    + simpl. rewrite Hc. reflexivity.
Qed.

Lemma rt_consumes b s st :
  match_at true _RT_RE b s = Some st -> length (input st) < length s.
Proof.
  rewrite rt_match_at. destruct b; [| discriminate].
  destruct s as [| x [| y [| c t]]]; try discriminate.
  destruct (_ && _); [| discriminate]. intros [= <-]. simpl.
  pose proof (skip_length is_space t). lia.
Qed.

Lemma rt_rest (tmpl : list ritem) (t : text) : sub_at true _RT_RE tmpl false t = t.
Proof.
  apply (sub_at_false_id true _RT_RE tmpl rt_consumes).
  intros s. rewrite rt_match_at. reflexivity.
Qed.

(** A leading [RT] in either case, with the whitespace after it, is
    stripped. *)
Lemma strip_rt_marker (x y : ascii) (ws rest : text) :
  lower x = "r"%char -> lower y = "t"%char ->
  ws <> [] -> forallb is_space ws = true -> starts_with is_space rest = false ->
  strip_rt (x :: y :: ws ++ rest) = rest.
Proof.
  intros Hx Hy Hne Hws Hrest. unfold strip_rt, sub_text.
  change (sub_loop (S (length ?s)) ?i ?r ?t ?b ?s) with (sub_at i r t b s).
  rewrite (sub_at_match true _RT_RE _ rt_consumes true _ (MState false None rest)).
  - rewrite expand_lit. cbn [input]. rewrite rt_rest. reflexivity.
  - rewrite rt_match_at. destruct ws as [| c ws]; [congruence |].
    simpl in Hws. apply andb_prop in Hws as [Hc Hws].
    cbn [app]. rewrite Hx, Hy, Hc.
    rewrite (skip_run _ _ _ Hws), (skip_stop _ _ Hrest). reflexivity.
Qed.

(** The steps of [preprocess] on a string that is not blank, in their
    order. *)
Lemma preprocess_steps (s : string) (platform : pyval) :
  is_blank (PyStr s) = false ->
  preprocess (PyStr s) platform
  = of_text (whitespace (platform_step platform
                           (strip_urls (html_entities (to_text s))))).
Proof.
  intros Hb. unfold preprocess.
  destruct (strip (to_text s)) as [| c t] eqn:Hs; [| reflexivity].
  apply strip_blank_iff in Hs. simpl in Hb. congruence.
Qed.

(** No URL starts at a character other than [h] and [w]. *)
Lemma url_no_start (b : bool) (c : ascii) (u : text) :
  c <> "h"%char -> c <> "w"%char -> match_at false _URL_RE b (c :: u) = None.
Proof.
  intros Hh Hw.
  change _URL_RE with
    (Alt (Cat (Cat (Lit "h") (Cat (Lit "t") (Cat (Lit "t") (Lit "p"))))
              (Cat (Opt (Lit "s"))
                   (Cat (Cat (Lit ":") (Cat (Lit "/") (Lit "/"))) (Plus is_nonspace))))
         (Cat (Cat (Lit "w") (Cat (Lit "w") (Lit "w")))
              (Cat (Lit ".") (Plus is_nonspace)))).
  unfold match_at. cbn [run input grp1 chr_eq].
  destruct (Ascii.eqb_spec "h" c) as [<- | _]; [congruence |].
  destruct (Ascii.eqb_spec "w" c) as [<- | _]; [congruence |].
  reflexivity.
Qed.

Lemma entity_no_start (b : bool) (c : ascii) (u : text) :
  c <> "&"%char -> match_at false _HTML_ENTITY_RE b (c :: u) = None.
Proof.
  intros Hc. rewrite entity_match_at. destruct u as [| x u]; [reflexivity |].
  destruct (Ascii.eqb_spec "&" c) as [<- | _]; [congruence | reflexivity].
Qed.

Lemma marker_char_plain (c : ascii) :
  marker_char c = true -> c <> "&"%char /\ c <> "h"%char /\ c <> "w"%char.
Proof.
  intros H. repeat split; intros ->; vm_compute in H; discriminate.
Qed.

Lemma html_entities_marker (pre t : text) :
  forallb marker_char pre = true ->
  html_entities (pre ++ t) = pre ++ html_entities t.
Proof.
  intros Hpre. destruct pre as [| c pre]; [reflexivity |].
  unfold html_entities, sub_text.
  change (sub_loop (S (length ?s)) ?i ?r ?t ?b ?s) with (sub_at i r t b s).
  rewrite sub_at_prefix; [| | discriminate].
  - rewrite (sub_at_any_bos _ _ _ entity_consumes entity_match_nobos true t).
    reflexivity.
  - intros b x u Hin. apply entity_no_start.
    rewrite forallb_forall in Hpre. apply (marker_char_plain x (Hpre x Hin)).
Qed.

Lemma strip_urls_marker (pre t : text) :
  forallb marker_char pre = true ->
  strip_urls (pre ++ t) = pre ++ strip_urls t.
Proof.
  intros Hpre. destruct pre as [| c pre]; [reflexivity |].
  unfold strip_urls, sub_text.
  change (sub_loop (S (length ?s)) ?i ?r ?t ?b ?s) with (sub_at i r t b s).
  rewrite sub_at_prefix; [reflexivity | | discriminate].
  intros b x u Hin. rewrite forallb_forall in Hpre.
  destruct (marker_char_plain x (Hpre x Hin)) as (_ & Hh & Hw).
  apply url_no_start; assumption.
Qed.

Lemma strip_rt_run (x y : ascii) (ws t : text) :
  lower x = "r"%char -> lower y = "t"%char ->
  ws <> [] -> forallb is_space ws = true ->
  strip_rt (x :: y :: ws ++ t) = skip is_space t.
Proof.
  intros Hx Hy Hne Hws. unfold strip_rt, sub_text.
  change (sub_loop (S (length ?s)) ?i ?r ?t ?b ?s) with (sub_at i r t b s).
  rewrite (sub_at_match true _RT_RE _ rt_consumes true _
             (MState false None (skip is_space t))).
  - rewrite expand_lit. cbn [input]. rewrite rt_rest. reflexivity.
  - rewrite rt_match_at. destruct ws as [| c ws]; [congruence |].
    simpl in Hws. apply andb_prop in Hws as [Hc Hws].
    cbn [app]. rewrite Hx, Hy, Hc. rewrite (skip_run _ _ _ Hws). reflexivity.
Qed.

(** A tweet that starts with a retweet marker is cleaned as what follows
    the marker, without a retweet step. *)
Lemma preprocess_retweet (x y : ascii) (ws rest : text) :
  lower x = "r"%char -> lower y = "t"%char ->
  ws <> [] -> forallb is_space ws = true ->
  preprocess (PyStr (of_text (x :: y :: ws ++ rest))) (PyStr "twitter")
  = of_text (whitespace (hashtags (mentions
               (skip is_space (strip_urls (html_entities rest)))))).
Proof.
  intros Hx Hy Hne Hws.
  assert (Hpre : forallb marker_char (x :: y :: ws) = true).
  { simpl. unfold marker_char at 1 2. rewrite Hx, Hy. simpl.
    rewrite forallb_forall in *. intros c Hc. unfold marker_char.
    rewrite (Hws c Hc). apply orb_true_r. }
  assert (Hnb : is_blank (PyStr (of_text (x :: y :: ws ++ rest))) = false).
  { unfold is_blank, to_text, of_text. rewrite list_ascii_of_string_of_list_ascii.
    simpl. destruct (is_space x) eqn:Hsx; [| reflexivity].
    exfalso. revert Hx Hsx. clear. intros Hx Hsx.
    unfold is_space, between, lower, between, code in *.
    destruct x as [[] [] [] [] [] [] [] []]; vm_compute in Hx, Hsx; discriminate. }
  rewrite (preprocess_steps _ _ Hnb).
  unfold to_text, of_text. rewrite list_ascii_of_string_of_list_ascii.
  change (x :: y :: ws ++ rest) with ((x :: y :: ws) ++ rest).
  rewrite (html_entities_marker _ _ Hpre), (strip_urls_marker _ _ Hpre).
  change (platform_step (PyStr "twitter") ?t) with (hashtags (mentions (strip_rt t))).
  change ((x :: y :: ws) ++ ?t) with (x :: y :: ws ++ t).
  rewrite (strip_rt_run x y ws _ Hx Hy Hne Hws). reflexivity.
Qed.

End Patterns.

(** C5: on the twitter platform [preprocess] runs, between URL removal and
    whitespace collapsing, the three twitter substitutions; a tweet that
    starts with [RT] in either case and whitespace is cleaned as the text
    after that marker, every mention becomes [@user], and every hashtag
    loses its [#] and keeps its word; the sample retweet is
    cleaned to [@user check great]. *)
Theorem C5_twitter_rules :
  (forall s : string,
      is_blank (PyStr s) = false ->
      TextPreprocessor.preprocess (PyStr s) (PyStr "twitter")
      = of_text (TextPreprocessor.whitespace
                   (TextPreprocessor.hashtags
                      (TextPreprocessor.mentions
                         (TextPreprocessor.strip_rt
                            (TextPreprocessor.strip_urls
                               (TextPreprocessor.html_entities (to_text s))))))))
  /\ (forall (x y : ascii) (ws rest : text),
         lower x = "r"%char -> lower y = "t"%char ->
         ws <> [] -> forallb is_space ws = true ->
         TextPreprocessor.preprocess (PyStr (of_text (x :: y :: ws ++ rest)))
           (PyStr "twitter")
         = of_text (TextPreprocessor.whitespace
                      (TextPreprocessor.hashtags
                         (TextPreprocessor.mentions
                            (skip is_space
                               (TextPreprocessor.strip_urls
                                  (TextPreprocessor.html_entities rest)))))))
  /\ (forall pre w post : text,
         w <> [] -> forallb is_word w = true -> starts_with is_word post = false ->
         TextPreprocessor.mentions (pre ++ "@"%char :: w ++ post)
         = TextPreprocessor.mentions pre ++ to_text "@user"
           ++ TextPreprocessor.mentions post)
  /\ (forall pre w post : text,
         w <> [] -> forallb is_word w = true -> starts_with is_word post = false ->
         TextPreprocessor.hashtags (pre ++ "#"%char :: w ++ post)
         = TextPreprocessor.hashtags pre ++ w ++ TextPreprocessor.hashtags post)
  /\ TextPreprocessor.preprocess (PyStr "RT @bob check http://x.co #great")
       (PyStr "twitter")
     = "@user check great".
Proof.
  split; [| split; [| split; [| split]]].
  - intros s Hb. apply (preprocess_steps s (PyStr "twitter") Hb).
  - exact preprocess_retweet.
  - exact mentions_app.
  - exact hashtags_app.
  - vm_compute. reflexivity.
Qed.

(** C9, as stated, fails on a numeric character reference: [&#39;] has the
    form [&...;] and is not replaced by a space. *)
Lemma C9_numeric_entity_is_kept :
  TextPreprocessor.html_entities (to_text "it&#39;s") = to_text "it&#39;s"
  /\ TextPreprocessor.preprocess (PyStr "it&#39;s") (PyStr "general") = "it&#39;s"
  /\ TextPreprocessor.preprocess (PyStr "it&#39;s") (PyStr "general") <> "it s".
Proof. repeat split; [vm_compute; reflexivity .. | vm_compute; discriminate]. Qed.

(** C9, amended: on a string that is not blank, [preprocess] first runs
    the entity replacement, then strips the URLs, then runs the platform
    step, then collapses whitespace.  The entity replacement turns every
    sequence of [&], one or more word characters and [;] into one space and
    changes nothing else: a text without [&] is left as it is, and an [&]
    that starts no such sequence (no word character follows it, or what
    follows the word characters is not [;]) is copied with the word
    characters after it.  So a URL ends where an entity was, and [&#39;]
    reaches the twitter step, which takes its [#]. *)
Theorem C9_html_entities_first :
  (forall (s : string) (platform : pyval),
      is_blank (PyStr s) = false ->
      TextPreprocessor.preprocess (PyStr s) platform
      = of_text (TextPreprocessor.whitespace
                   (TextPreprocessor.platform_step platform
                      (TextPreprocessor.strip_urls
                         (TextPreprocessor.html_entities (to_text s))))))
  /\ (forall pre w post : text,
         w <> [] -> forallb is_word w = true ->
         TextPreprocessor.html_entities (pre ++ "&"%char :: w ++ ";"%char :: post)
         = TextPreprocessor.html_entities pre ++ to_text " "
           ++ TextPreprocessor.html_entities post)
  /\ (forall t : text, ~ In "&"%char t -> TextPreprocessor.html_entities t = t)
  /\ (forall pre w post : text,
         forallb is_word w = true -> starts_with is_word post = false ->
         w = [] \/ starts_with (Ascii.eqb ";") post = false ->
         TextPreprocessor.html_entities (pre ++ "&"%char :: w ++ post)
         = TextPreprocessor.html_entities pre ++ "&"%char :: w
           ++ TextPreprocessor.html_entities post)
  /\ TextPreprocessor.preprocess (PyStr "http://x.co/a&amp;b") (PyStr "general") = "b"
  /\ TextPreprocessor.preprocess (PyStr "&#tag;") (PyStr "twitter") = "&tag;"
  /\ TextPreprocessor.preprocess (PyStr "it&#39;s") (PyStr "twitter") = "it&39;s".
Proof.
  split; [| split; [| split; [| split; [| split; [| split]]]]].
  - exact preprocess_steps.
  - exact html_entities_app.
  - exact html_entities_id.
  - exact html_entities_keep.
  - vm_compute. reflexivity.
  - vm_compute. reflexivity.
  - vm_compute. reflexivity.
Qed.

(** ** The properties at sample inputs *)

Lemma sample_rows_per_text :
  forall batch,
    length (RobertaAnalyzer.forward_batch sample_roberta batch) = length batch.
Proof. intros batch. apply length_map. Qed.

Lemma C1_ensemble_label_witness :
  SentimentPipeline._ensemble_label
    (SentimentPipeline.Make sample_vader (Some sample_roberta)) sample_row
  = Ok (PyStr "negative").
Proof.
  destruct (C1_ensemble_label
              (SentimentPipeline.Make sample_vader (Some sample_roberta))
              sample_row "positive" eq_refl) as [_ H].
  destruct (H "negative" eq_refl eq_refl) as [_ Hne].
  apply Hne. discriminate.
Defined.

Lemma C2_ensemble_score_witness :
  SentimentPipeline._ensemble_score
    (SentimentPipeline.Make sample_vader (Some sample_roberta)) sample_row
  = Ok (PyFloat (0.3 * ((0.5 + 1) / 2) + 0.7 * ((0.25 - 0.5 + 1) / 2))%float).
Proof.
  destruct (C2_ensemble_score
              (SentimentPipeline.Make sample_vader (Some sample_roberta))
              sample_row 0.5%float eq_refl) as [_ H].
  exact (H 0.25%float 0.5%float eq_refl eq_refl eq_refl eq_refl).
Defined.

Lemma C3_compound_to_label_witness :
  VaderAnalyzer._compound_to_label 0.3%float = "positive"
  /\ VaderAnalyzer._compound_to_label (-0.3)%float = "negative"
  /\ VaderAnalyzer._compound_to_label 0.01%float = "neutral".
Proof.
  destruct C3_compound_to_label_thresholds as [H _].
  split; [| split].
  - apply (H 0.3%float). reflexivity.
  - apply (H (-0.3)%float). reflexivity.
  - apply (H 0.01%float); reflexivity.
Defined.

Lemma C4_preprocess_blank_witness :
  TextPreprocessor.preprocess PyNone (PyStr "twitter") = ""
  /\ TextPreprocessor.preprocess (PyStr "   ") (PyFloat 1%float) = "".
Proof.
  split.
  - apply C4_preprocess_blank. reflexivity.
  - apply C4_preprocess_blank. reflexivity.
Defined.

Lemma C5_twitter_rules_witness :
  TextPreprocessor.mentions (to_text "hi @bob!")
  = TextPreprocessor.mentions (to_text "hi ") ++ to_text "@user"
    ++ TextPreprocessor.mentions (to_text "!").
Proof.
  destruct C5_twitter_rules as (_ & _ & H & _).
  apply (H (to_text "hi ") (to_text "bob") (to_text "!")).
  - discriminate.
  - reflexivity.
  - reflexivity.
Defined.


Lemma C7_degrades_to_lexical_only_witness :
  exists self msg,
    SentimentPipeline.__init__ sample_vader (Raise (Exn "OSError" "no weights")) true
      sample_world
    = (Ok self, World (frames sample_world) (log sample_world ++ [("WARNING", msg)]))
    /\ SentimentPipeline.roberta self = None.
Proof.
  destruct (C7_degrades_to_lexical_only sample_repr sample_vader
              (Exn "OSError" "no weights") sample_world)
    as (self & msg & Hinit & Hnone & _).
  exists self, msg. split; [exact Hinit | exact Hnone].
Defined.

Lemma C9_html_entities_first_witness :
  TextPreprocessor.html_entities (to_text "a&amp;b")
  = TextPreprocessor.html_entities (to_text "a") ++ to_text " "
    ++ TextPreprocessor.html_entities (to_text "b").
Proof.
  destruct C9_html_entities_first as (_ & H & _).
  apply (H (to_text "a") (to_text "amp") (to_text "b")).
  - discriminate.
  - reflexivity.
Defined.

Lemma C10_input_frame_not_mutated_witness :
  frames (SentimentPipeline.analyze_dataframe sample_repr
            (SentimentPipeline.Make sample_vader (Some sample_roberta))
            0 true sample_world).2 !! 0
  = frames sample_world !! 0.
Proof.
  destruct (C10_input_frame_not_mutated sample_repr
              (SentimentPipeline.Make sample_vader (Some sample_roberta))
              0 true sample_world _ eq_refl) as (H & _).
  exact H.
Defined.

(** * Further properties of the analyzers *)

(** ** What a match consumes *)

Lemma plus_loop_consumes (p : ascii -> bool) (g : option text)
    (k : Re.mstate -> option Re.mstate) (res : Re.mstate) :
  forall s,
    Re.plus_loop p g s k = Some res ->
    exists s', k (Re.MState false g s') = Some res /\ length s' < length s.
Proof.
  induction s as [| c s IH]; simpl; [discriminate |].
  destruct (p c); [| discriminate].
  destruct (Re.plus_loop p g s k) as [r' |] eqn:Hl.
  - intros [= <-]. destruct (IH eq_refl) as (s' & Hk & Hlen).
    exists s'. split; [exact Hk | lia].
  - intros Hk. exists s. split; [exact Hk | lia].
Qed.

Lemma run_consumes (icase : bool) (r : Re.regex) :
  forall st k res,
    Re.run icase r st k = Some res ->
    exists st', k st' = Some res
      /\ length (Re.input st') + (if nonempty r then 1 else 0) <= length (Re.input st).
Proof.
  induction r as [| c | p | | r1 IH1 r2 IH2 | r1 IH1 r2 IH2 | p | r IH | r IH];
    intros st k res H; simpl in H.
  - exists st. split; [exact H | simpl; lia].
  - destruct (Re.input st) as [| x s'] eqn:Hs; [discriminate |].
    destruct (Re.chr_eq icase c x); [| discriminate].
    eexists. split; [exact H | simpl; lia].
  - destruct (Re.input st) as [| x s'] eqn:Hs; [discriminate |].
    destruct (p x); [| discriminate].
    eexists. split; [exact H | simpl; lia].
  - destruct (Re.at_bos st); [| discriminate].
    exists st. split; [exact H | simpl; lia].
  - destruct (IH1 _ _ _ H) as (st1 & H1 & Hl1).
    destruct (IH2 _ _ _ H1) as (st2 & H2 & Hl2).
    exists st2. split; [exact H2 |]. simpl.
    destruct (nonempty r1), (nonempty r2); simpl in *; lia.
  - destruct (Re.run icase r1 st k) as [m |] eqn:H1.
    + injection H as <-. destruct (IH1 _ _ _ H1) as (st1 & Hk & Hl).
      exists st1. split; [exact Hk |]. simpl.
      destruct (nonempty r1), (nonempty r2); simpl in *; lia.
    + destruct (IH2 _ _ _ H) as (st2 & Hk & Hl).
      exists st2. split; [exact Hk |]. simpl.
      destruct (nonempty r1), (nonempty r2); simpl in *; lia.
  - destruct (plus_loop_consumes _ _ _ _ _ H) as (s' & Hk & Hl).
    eexists. split; [exact Hk | simpl; lia].
  - destruct (Re.run icase r st k) as [m |] eqn:H1.
    + injection H as <-. destruct (IH _ _ _ H1) as (st1 & Hk & Hl).
      exists st1. split; [exact Hk | simpl; lia].
    + exists st. split; [exact H | simpl; lia].
  - destruct (IH _ _ _ H) as (st1 & Hk & Hl).
    eexists. split; [exact Hk | simpl in *; exact Hl].
Qed.

(** A pattern that cannot match the empty text consumes a character at
    every match: [sub] never loops and never inserts text between two
    characters. *)
Lemma match_at_consumes (icase : bool) (r : Re.regex) :
  nonempty r = true ->
  forall b s st, Re.match_at icase r b s = Some st -> length (Re.input st) < length s.
Proof.
  intros Hr b s st H. destruct (run_consumes icase r _ _ _ H) as (st' & [= <-] & Hl).
  rewrite Hr in Hl. simpl in Hl. lia.
Qed.

(** ** Substituting the runs of a character class *)

Section Runs.

Variables (icase : bool) (p : ascii -> bool) (rep : text).

Lemma plus_match_at (b : bool) (s : text) :
  Re.match_at icase (Re.Plus p) b s
  = match s with
    | c :: t => if p c then Some (Re.MState false None (skip p t)) else None
    | [] => None
    end.
Proof.
  unfold Re.match_at. cbn [Re.run Re.input Re.grp1].
  destruct s as [| c t]; [reflexivity |].
  destruct (p c) eqn:Hc.
  - apply plus_loop_greedy; [exact Hc | reflexivity].
  - simpl. rewrite Hc. reflexivity.
Qed.

Lemma squash_in_run (t : text) :
  squash_go p rep true t = squash_go p rep false (skip p t).
Proof.
  induction t as [| c t IH]; simpl; [reflexivity |].
  destruct (p c) eqn:Hc; simpl.
  - exact IH.
  - rewrite Hc. reflexivity.
Qed.

(** [sub] for the pattern [p+] replaces each maximal run by [rep]. *)
Lemma sub_at_plus (t : text) :
  forall b, sub_at icase (Re.Plus p) [Re.RLit rep] b t = squash_go p rep false t.
Proof.
  remember (length t) as n eqn:Hn. revert t Hn.
  induction n as [n IH] using lt_wf_ind. intros t Hn b.
  pose proof (match_at_consumes icase (Re.Plus p) eq_refl) as Hcons.
  destruct t as [| c t]; [apply sub_at_nil, Hcons |].
  pose proof (plus_match_at b (c :: t)) as Hm. cbv beta iota in Hm.
  destruct (p c) eqn:Hc.
  - rewrite (sub_at_match _ _ _ Hcons _ _ _ Hm), expand_lit. cbn [Re.input].
    simpl. rewrite Hc, squash_in_run. f_equal.
    apply (IH (length (skip p t))); [| reflexivity].
    pose proof (skip_length p t). subst n. simpl. lia.
  - rewrite (sub_at_skip _ _ _ _ _ _ Hm). simpl. rewrite Hc. f_equal.
    apply (IH (length t)); [subst n; simpl; lia | reflexivity].
Qed.

End Runs.

Lemma squash_filter (p : ascii -> bool) (t : text) :
  forall in_run, squash_go p [] in_run t = List.filter (fun c => negb (p c)) t.
Proof.
  induction t as [| c t IH]; intros in_run; simpl; [reflexivity |].
  destruct (p c); simpl.
  - destruct in_run; apply IH.
  - f_equal. apply IH.
Qed.

(** Collapsed whitespace: after a run is replaced by one space, a space is
    never followed by whitespace. *)
Lemma squash_single_spaced (t : text) :
  single_spaced (squash_go is_space (to_text " ") false t) = true
  /\ single_spaced (squash_go is_space (to_text " ") true t) = true
  /\ starts_with is_space (squash_go is_space (to_text " ") true t) = false.
Proof.
  change (to_text " ") with [" "%char].
  induction t as [| c t (IHf & IHt & IHs)]; simpl; [repeat split |].
  destruct (is_space c) eqn:Hc; simpl.
  - rewrite IHs, IHt. repeat split; assumption.
  - rewrite Hc, IHf. repeat split.
Qed.

Lemma single_spaced_app_r (a b : text) :
  single_spaced (a ++ b) = true -> single_spaced b = true.
Proof.
  induction a as [| c a IH]; simpl; [trivial |].
  intros H. apply andb_prop in H as [_ H]. apply IH, H.
Qed.

Lemma single_spaced_app_l (a b : text) :
  single_spaced (a ++ b) = true -> single_spaced a = true.
Proof.
  induction a as [| c a IH]; simpl; [reflexivity |].
  intros H. apply andb_prop in H as [Hc H]. rewrite (IH H), andb_true_r.
  destruct (is_space c); simpl in *; [| reflexivity].
  apply andb_prop in Hc as [Hsp Hnext]. rewrite Hsp. simpl.
  destruct a as [| d a]; [reflexivity | exact Hnext].
Qed.

Lemma lstrip_no_lead (t : text) : starts_with is_space (lstrip t) = false.
Proof.
  destruct (lstrip t) as [| c u] eqn:H; [reflexivity |].
  simpl. exact (lstrip_head _ _ _ H).
Qed.

Lemma rstrip_prefix (t : text) :
  exists post, t = rstrip t ++ post /\ forallb is_space post = true.
Proof.
  unfold rstrip. destruct (lstrip_suffix (rev t)) as (pre & Heq & Hpre).
  exists (rev pre). split.
  - rewrite <- rev_app_distr, <- Heq, rev_involutive. reflexivity.
  - rewrite forallb_forall in *. intros c Hin. apply Hpre. apply in_rev. exact Hin.
Qed.

Lemma strip_no_lead (t : text) : starts_with is_space (strip t) = false.
Proof.
  unfold strip. pose proof (lstrip_no_lead t) as Hl.
  destruct (rstrip_prefix (lstrip t)) as (post & Heq & _).
  destruct (rstrip (lstrip t)) as [| c u]; [reflexivity |].
  rewrite Heq in Hl. exact Hl.
Qed.

Lemma strip_no_trail (t : text) : starts_with is_space (rev (strip t)) = false.
Proof.
  unfold strip, rstrip. rewrite rev_involutive. apply lstrip_no_lead.
Qed.

Lemma strip_single_spaced (t : text) :
  single_spaced t = true -> single_spaced (strip t) = true.
Proof.
  intros H. unfold strip.
  destruct (lstrip_suffix t) as (pre & Heq & _).
  rewrite Heq in H. apply single_spaced_app_r in H.
  destruct (rstrip_prefix (lstrip t)) as (post & Heq' & _).
  rewrite Heq' in H. apply single_spaced_app_l in H. exact H.
Qed.

Lemma whitespace_squash (t : text) :
  TextPreprocessor.whitespace t = strip (squash_go is_space (to_text " ") false t).
Proof.
  unfold TextPreprocessor.whitespace, Re.sub_text.
  change (Re.sub_loop (S (length ?s)) ?i ?r ?tm ?b ?s) with (sub_at i r tm b s).
  unfold TextPreprocessor._WHITESPACE_RE. rewrite sub_at_plus. reflexivity.
Qed.

(** X1: whatever the input and the platform, the text [preprocess]
    returns has no whitespace at either end, and its only whitespace
    characters are single spaces between other characters. *)
Theorem X1_preprocess_whitespace_normal (txt platform : pyval) :
  let out := to_text (TextPreprocessor.preprocess txt platform) in
  starts_with is_space out = false
  /\ starts_with is_space (rev out) = false
  /\ single_spaced out = true.
Proof.
  cbv zeta. unfold TextPreprocessor.preprocess.
  destruct txt as [| f | s]; [repeat split .. |].
  destruct (strip (to_text s)) as [| c u]; [repeat split |].
  unfold to_text at 1 3 5, of_text. rewrite list_ascii_of_string_of_list_ascii.
  rewrite whitespace_squash.
  split; [apply strip_no_lead | split; [apply strip_no_trail |]].
  apply strip_single_spaced, squash_single_spaced.
Qed.

Lemma squash_chars (p : ascii -> bool) (rep t : text) (c : ascii) :
  forall in_run,
    In c (squash_go p rep in_run t) -> In c rep \/ (In c t /\ p c = false).
Proof.
  induction t as [| x t IH]; intros in_run; simpl; [tauto |].
  destruct (p x) eqn:Hx.
  - rewrite in_app_iff. intros [Hin | Hin].
    + destruct in_run; [destruct Hin | left; exact Hin].
    + destruct (IH _ Hin) as [? | [? ?]]; tauto.
  - intros [<- | Hin]; [tauto |].
    destruct (IH _ Hin) as [? | [? ?]]; tauto.
Qed.

Lemma strip_chars (t : text) (c : ascii) : In c (strip t) -> In c t.
Proof.
  unfold strip. intros H.
  destruct (rstrip_prefix (lstrip t)) as (post & Heq & _).
  destruct (lstrip_suffix t) as (pre & Heq' & _).
  rewrite Heq', Heq, !in_app_iff. tauto.
Qed.

Lemma markdown_filter (t : text) :
  TextPreprocessor.markdown t
  = List.filter (fun c => negb (TextPreprocessor.one_of "*_~`>{}[]" c)) t.
Proof.
  unfold TextPreprocessor.markdown, Re.sub_text.
  change (Re.sub_loop (S (length ?s)) ?i ?r ?tm ?b ?s) with (sub_at i r tm b s).
  unfold TextPreprocessor._MARKDOWN_RE. rewrite sub_at_plus. apply squash_filter.
Qed.

(** X2: the reddit step deletes exactly the markdown characters and keeps
    every other character in place, and no markdown character is left in
    the text [preprocess] returns for the reddit platform. *)
Theorem X2_reddit_markdown_removed :
  (forall t : text,
      TextPreprocessor.markdown t
      = List.filter (fun c => negb (TextPreprocessor.one_of "*_~`>{}[]" c)) t)
  /\ (forall (txt : pyval) (c : ascii),
         In c (to_text (TextPreprocessor.preprocess txt (PyStr "reddit"))) ->
         TextPreprocessor.one_of "*_~`>{}[]" c = false).
Proof.
  split; [exact markdown_filter |].
  intros txt c. unfold TextPreprocessor.preprocess.
  destruct txt as [| f | s]; [intros [] .. |].
  destruct (strip (to_text s)) as [| x u]; [intros [] |].
  unfold to_text at 1, of_text. rewrite list_ascii_of_string_of_list_ascii.
  rewrite whitespace_squash. intros Hin. apply strip_chars in Hin.
  apply squash_chars in Hin as [Hsp | [Hin _]].
  - destruct Hsp as [<- | []]. reflexivity.
  - change (TextPreprocessor.platform_step (PyStr "reddit") ?t)
      with (TextPreprocessor.markdown t) in Hin.
    rewrite markdown_filter in Hin. apply filter_In in Hin as [_ Hc].
    apply negb_true_iff in Hc. exact Hc.
Qed.

(** ** Matching stops at a character the pattern avoids *)

Lemma plus_loop_local (p : ascii -> bool) (x : ascii) (v : text)
    (k k' : Re.mstate -> option Re.mstate) :
  p x = false ->
  (forall b g s1,
      k' (Re.MState b g (s1 ++ x :: v)) = extend (x :: v) (k (Re.MState b g s1))) ->
  forall g u,
    Re.plus_loop p g (u ++ x :: v) k' = extend (x :: v) (Re.plus_loop p g u k).
Proof.
  intros Hx Hk g. induction u as [| c u IH]; simpl.
  - rewrite Hx. reflexivity.
  - destruct (p c); [| reflexivity]. rewrite IH.
    destruct (Re.plus_loop p g u k); [reflexivity | apply Hk].
Qed.

Lemma run_local (icase : bool) (x : ascii) (v : text) (r : Re.regex) :
  avoids icase x r = true ->
  forall k k',
    (forall b g s1,
        k' (Re.MState b g (s1 ++ x :: v)) = extend (x :: v) (k (Re.MState b g s1))) ->
    forall b g u,
      Re.run icase r (Re.MState b g (u ++ x :: v)) k'
      = extend (x :: v) (Re.run icase r (Re.MState b g u) k).
Proof.
  induction r as [| c | p | | r1 IH1 r2 IH2 | r1 IH1 r2 IH2 | p | r IH | r IH];
    intros Hav k k' Hk b g u; cbn [Re.run Re.input Re.grp1 Re.at_bos avoids] in *.
  - apply Hk.
  - destruct u as [| y u]; cbn [app].
    + apply negb_true_iff in Hav. rewrite Hav. reflexivity.
    + destruct (Re.chr_eq icase c y); [apply Hk | reflexivity].
  - destruct u as [| y u]; cbn [app].
    + apply negb_true_iff in Hav. rewrite Hav. reflexivity.
    + destruct (p y); [apply Hk | reflexivity].
  - destruct b; [apply Hk | reflexivity].
  - apply andb_prop in Hav as [H1 H2].
    apply (IH1 H1). intros b' g' s1. apply (IH2 H2 _ _ Hk).
  - apply andb_prop in Hav as [H1 H2].
    rewrite (IH1 H1 _ _ Hk), (IH2 H2 _ _ Hk).
    destruct (Re.run icase r1 (Re.MState b g u) k); reflexivity.
  - apply negb_true_iff in Hav. apply plus_loop_local; assumption.
  - rewrite (IH Hav _ _ Hk).
    destruct (Re.run icase r (Re.MState b g u) k); [reflexivity | apply Hk].
  - apply (IH Hav). intros b' g' s1. cbn [Re.input Re.at_bos].
    rewrite <- Hk.
    assert (Ht : take (length (u ++ x :: v) - length (s1 ++ x :: v)) (u ++ x :: v)
                 = take (length u - length s1) u).
    { rewrite !length_app.
      replace (length u + length (x :: v) - (length s1 + length (x :: v)))
        with (length u - length s1) by lia.
      apply take_app_le. lia. }
    rewrite Ht. reflexivity.
Qed.

Lemma match_at_local (icase : bool) (x : ascii) (v : text) (r : Re.regex) :
  avoids icase x r = true ->
  forall b u,
    Re.match_at icase r b (u ++ x :: v) = extend (x :: v) (Re.match_at icase r b u).
Proof.
  intros Hav b u. unfold Re.match_at.
  apply (run_local icase x v r Hav). reflexivity.
Qed.

(** ** URLs *)

Section Urls.

Import Re TextPreprocessor.

Lemma url_nonempty : nonempty _URL_RE = true.
Proof. reflexivity. Qed.

Lemma url_consumes b s st :
  match_at false _URL_RE b s = Some st -> length (input st) < length s.
Proof. apply match_at_consumes, url_nonempty. Qed.

Lemma url_match_nobos b s :
  match_at false _URL_RE b s = match_at false _URL_RE false s.
Proof. reflexivity. Qed.

Lemma url_avoids_space (x : ascii) : is_space x = true -> avoids false x _URL_RE = true.
Proof.
  intros Hx. unfold is_nonspace.
  change _URL_RE with
    (Alt (Cat (Cat (Lit "h") (Cat (Lit "t") (Cat (Lit "t") (Lit "p"))))
              (Cat (Opt (Lit "s"))
                   (Cat (Cat (Lit ":") (Cat (Lit "/") (Lit "/"))) (Plus is_nonspace))))
         (Cat (Cat (Lit "w") (Cat (Lit "w") (Lit "w")))
              (Cat (Lit ".") (Plus is_nonspace)))).
  cbn [avoids chr_eq]. unfold is_nonspace. rewrite Hx.
  assert (Hlit : forall c : ascii, is_space c = false -> negb (Ascii.eqb c x) = true).
  { intros c Hc. destruct (Ascii.eqb_spec c x) as [-> | _]; [congruence | reflexivity]. }
  rewrite !Hlit by reflexivity. reflexivity.
Qed.

(** A URL that starts at the head of the text runs to the next
    whitespace. *)
Lemma url_match_scheme (scheme : text) (c : ascii) (t : text) (b : bool) :
  url_scheme scheme -> is_nonspace c = true ->
  match_at false _URL_RE b (scheme ++ c :: t)
  = Some (MState false None (skip is_nonspace t)).
Proof.
  intros Hs Hc.
  assert (Hplus : plus_loop is_nonspace None (c :: t) Some
                  = Some (MState false None (skip is_nonspace t))).
  { apply plus_loop_greedy; [exact Hc | reflexivity]. }
  change _URL_RE with
    (Alt (Cat (Cat (Lit "h") (Cat (Lit "t") (Cat (Lit "t") (Lit "p"))))
              (Cat (Opt (Lit "s"))
                   (Cat (Cat (Lit ":") (Cat (Lit "/") (Lit "/"))) (Plus is_nonspace))))
         (Cat (Cat (Lit "w") (Cat (Lit "w") (Lit "w")))
              (Cat (Lit ".") (Plus is_nonspace)))).
  unfold match_at.
  destruct Hs as [-> | [-> | ->]];
    cbn [run input grp1 at_bos chr_eq to_text list_ascii_of_string app];
    cbn [Ascii.eqb Bool.eqb]; rewrite Hplus; reflexivity.
Qed.

Lemma strip_urls_space (u v : text) (c : ascii) :
  is_space c = true ->
  strip_urls (u ++ c :: v) = strip_urls u ++ c :: strip_urls v.
Proof.
  intros Hc. unfold strip_urls, sub_text.
  change (sub_loop (S (length ?s)) ?i ?r ?t ?b ?s) with (sub_at i r t b s).
  rewrite (sub_at_app false _URL_RE _ (c :: v) url_consumes url_match_nobos).
  2: { intros b u' _. apply match_at_local, url_avoids_space, Hc. }
  f_equal. rewrite sub_at_skip; [reflexivity |].
  pose proof (match_at_local false c v _URL_RE (url_avoids_space c Hc) true []) as H.
  exact H.
Qed.

Lemma strip_urls_token (scheme body post : text) :
  url_scheme scheme -> body <> [] -> forallb is_nonspace body = true ->
  starts_with is_nonspace post = false ->
  strip_urls (scheme ++ body ++ post) = strip_urls post.
Proof.
  intros Hs Hne Hbody Hpost. unfold strip_urls, sub_text.
  change (sub_loop (S (length ?s)) ?i ?r ?t ?b ?s) with (sub_at i r t b s).
  destruct body as [| c body]; [congruence |].
  simpl in Hbody. apply andb_prop in Hbody as [Hc Hbody].
  rewrite (sub_at_match false _URL_RE _ url_consumes true _ (MState false None post)).
  - rewrite expand_lit. reflexivity.
  - cbn [app]. rewrite (url_match_scheme scheme c _ true Hs Hc).
    rewrite (skip_run _ _ _ Hbody), (skip_stop _ _ Hpost). reflexivity.
Qed.

Lemma platform_step_nil (platform : pyval) : platform_step platform [] = [].
Proof.
  unfold platform_step.
  destruct (is_platform platform "twitter"); [reflexivity |].
  destruct (is_platform platform "reddit"); [reflexivity |].
  destruct (is_platform platform "amazon"); reflexivity.
Qed.

(** X3: [strip_urls] works token by token, a whitespace character is
    kept and separates what is stripped on either side of it; a token that
    starts with [http://], [https://] or [www.] and goes on is removed
    whole; and a text that is one such token without [&] is cleaned to the
    empty string on every platform. *)
Theorem X3_urls_are_removed_whole :
  (forall (u v : text) (c : ascii),
      is_space c = true ->
      strip_urls (u ++ c :: v) = strip_urls u ++ c :: strip_urls v)
  /\ (forall scheme body post : text,
         url_scheme scheme -> body <> [] -> forallb is_nonspace body = true ->
         starts_with is_nonspace post = false ->
         strip_urls (scheme ++ body ++ post) = strip_urls post)
  /\ (forall (scheme body : text) (platform : pyval),
         url_scheme scheme -> body <> [] -> forallb is_nonspace body = true ->
         ~ In "&"%char body ->
         preprocess (PyStr (of_text (scheme ++ body))) platform = "").
Proof.
  split; [exact strip_urls_space | split; [exact strip_urls_token |]].
  intros scheme body platform Hs Hne Hbody Hamp.
  assert (Hnb : is_blank (PyStr (of_text (scheme ++ body))) = false).
  { unfold is_blank, to_text, of_text. rewrite list_ascii_of_string_of_list_ascii.
    destruct Hs as [-> | [-> | ->]]; reflexivity. }
  rewrite (preprocess_steps _ _ Hnb).
  unfold to_text at 1, of_text at 2. rewrite list_ascii_of_string_of_list_ascii.
  rewrite html_entities_id.
  - rewrite <- (app_nil_r body) at 1.
    rewrite (strip_urls_token scheme body [] Hs Hne Hbody eq_refl).
    change (strip_urls []) with (@nil ascii). rewrite platform_step_nil. reflexivity.
  - rewrite in_app_iff. intros [Hin | Hin]; [| exact (Hamp Hin)].
    destruct Hs as [-> | [-> | ->]]; vm_compute in Hin; intuition discriminate.
Qed.

End Urls.

(** ** The model-specific cleaning *)

Section ForRoberta.

Import TextPreprocessor.

Lemma split_go_token (t rest cur : text) :
  forallb is_nonspace t = true ->
  split_go cur (t ++ rest) = split_go (rev t ++ cur) rest.
Proof.
  revert cur. induction t as [| c t IH]; intros cur Ht; simpl; [reflexivity |].
  simpl in Ht. apply andb_prop in Ht as [Hc Ht].
  unfold is_nonspace in Hc. apply negb_true_iff in Hc. rewrite Hc.
  rewrite (IH (c :: cur) Ht), <- app_assoc. reflexivity.
Qed.

Lemma split_go_tokens (t cur : text) :
  forallb is_nonspace cur = true -> Forall is_token (split_go cur t).
Proof.
  revert cur. induction t as [| c t IH]; intros cur Hcur; simpl.
  - destruct cur as [| x cur]; [constructor |].
    constructor; [| constructor]. split.
    + intros H. apply (f_equal (@length ascii)) in H.
      rewrite length_rev in H. discriminate.
    + rewrite forallb_forall in *. intros y Hy. apply Hcur. apply in_rev. exact Hy.
  - destruct (is_space c) eqn:Hc.
    + destruct cur as [| x cur]; [apply IH; reflexivity |].
      constructor; [| apply IH; reflexivity]. split.
      * intros H. apply (f_equal (@length ascii)) in H.
        rewrite length_rev in H. discriminate.
      * rewrite forallb_forall in *. intros y Hy. apply Hcur. apply in_rev. exact Hy.
    + apply IH. simpl. unfold is_nonspace at 1. rewrite Hc. exact Hcur.
Qed.

Lemma split_tokens (t : text) : Forall is_token (split t).
Proof. apply split_go_tokens. reflexivity. Qed.

(** Joining words with a space and splitting again gives the words. *)
Lemma split_join (ts : list text) :
  Forall is_token ts -> split (join (to_text " ") ts) = ts.
Proof.
  unfold split. induction 1 as [| t ts [Hne Ht] Hts IH]; [reflexivity |].
  destruct ts as [| t' ts].
  - simpl. rewrite <- (app_nil_r t) at 1. rewrite (split_go_token _ _ _ Ht).
    rewrite app_nil_r. simpl.
    destruct (rev t) as [| x r] eqn:Hr.
    + apply (f_equal (@length ascii)) in Hr. rewrite length_rev in Hr.
      destruct t; [congruence | discriminate].
    + rewrite <- Hr, rev_involutive. reflexivity.
  - change (join (to_text " ") (t :: t' :: ts))
      with (t ++ " "%char :: join (to_text " ") (t' :: ts)).
    rewrite (split_go_token _ _ _ Ht), app_nil_r.
    cbn [split_go]. change (is_space " ") with true. cbv iota.
    destruct (rev t) as [| x r] eqn:Hr.
    + apply (f_equal (@length ascii)) in Hr. rewrite length_rev in Hr.
      destruct t; [congruence | discriminate].
    + rewrite <- Hr, rev_involutive, IH. reflexivity.
Qed.

Lemma roberta_token_is_token (t : text) : is_token t -> is_token (roberta_token t).
Proof.
  intros Ht. unfold roberta_token.
  destruct (_ && _); [split; [discriminate | reflexivity] |].
  destruct (startswith _ t); [split; [discriminate | reflexivity] | exact Ht].
Qed.

Lemma roberta_token_idem (t : text) : roberta_token (roberta_token t) = roberta_token t.
Proof.
  destruct (startswith (to_text "@") t && (1 <? length t)%nat) eqn:Hat.
  - assert (H : roberta_token t = to_text "@user")
      by (unfold roberta_token; rewrite Hat; reflexivity).
    rewrite H. reflexivity.
  - destruct (startswith (to_text "http") t) eqn:Hh.
    + assert (H : roberta_token t = to_text "http")
        by (unfold roberta_token; rewrite Hat, Hh; reflexivity).
      rewrite H. reflexivity.
    + assert (H : roberta_token t = t)
        by (unfold roberta_token; rewrite Hat, Hh; reflexivity).
      rewrite !H. reflexivity.
Qed.

Lemma preprocess_for_roberta_tokens (s : string) :
  preprocess_for_roberta s
  = of_text (join (to_text " ") (map roberta_token (split (to_text s)))).
Proof. reflexivity. Qed.

Lemma roberta_tokens_valid (t : text) : Forall is_token (map roberta_token (split t)).
Proof.
  apply Forall_forall. intros tok Hin. apply list_elem_of_In in Hin.
  apply in_map_iff in Hin as (tok0 & <- & Hin0).
  apply roberta_token_is_token.
  pose proof (split_tokens t) as H. rewrite Forall_forall in H. apply H.
  apply list_elem_of_In. exact Hin0.
Qed.

(** X4: [preprocess_for_roberta] is idempotent: a text it has cleaned is
    left as it is by a second pass. *)
Theorem X4_preprocess_for_roberta_idempotent (s : string) :
  preprocess_for_roberta (preprocess_for_roberta s) = preprocess_for_roberta s.
Proof.
  rewrite (preprocess_for_roberta_tokens (preprocess_for_roberta s)).
  rewrite (preprocess_for_roberta_tokens s) at 1.
  unfold to_text at 1, of_text at 2. rewrite list_ascii_of_string_of_list_ascii.
  rewrite (split_join _ (roberta_tokens_valid (to_text s))).
  rewrite map_map. rewrite (map_ext _ _ roberta_token_idem).
  reflexivity.
Qed.

(** X5: the words of the text [preprocess_for_roberta] returns are the
    words of its input, each one normalised; a word of the result that
    starts with [@] is [@] alone or [@user], and one that starts with
    [http] is [http]. *)
Theorem X5_preprocess_for_roberta_words (s : string) :
  split (to_text (preprocess_for_roberta s)) = map roberta_token (split (to_text s))
  /\ Forall (fun w =>
               (startswith (to_text "@") w = true ->
                w = to_text "@" \/ w = to_text "@user")
               /\ (startswith (to_text "http") w = true -> w = to_text "http"))
            (split (to_text (preprocess_for_roberta s))).
Proof.
  assert (Hsplit : split (to_text (preprocess_for_roberta s))
                   = map roberta_token (split (to_text s))).
  { rewrite preprocess_for_roberta_tokens.
    unfold to_text at 1, of_text. rewrite list_ascii_of_string_of_list_ascii.
    apply split_join, roberta_tokens_valid. }
  split; [exact Hsplit |]. rewrite Hsplit.
  apply Forall_forall. intros w Hin. apply list_elem_of_In in Hin.
  apply in_map_iff in Hin as (w0 & <- & _).
  unfold roberta_token.
  destruct (startswith (to_text "@") w0 && (1 <? length w0)%nat) eqn:Hat.
  - split; [right; reflexivity | discriminate].
  - destruct (startswith (to_text "http") w0) eqn:Hh.
    + split; [discriminate | reflexivity].
    + split; [| congruence]. intros Hw. rewrite Hw in Hat.
      destruct w0 as [| a [| b w0]]; [discriminate | | discriminate].
      left. cbn [startswith to_text list_ascii_of_string] in Hw.
      rewrite andb_true_r in Hw.
      apply Ascii.eqb_eq in Hw. subst a. reflexivity.
Qed.

End ForRoberta.

(** ** Edge cases of the batch loop and of the resolver *)

(** X6: [analyze_batch] raises [ValueError] on a batch size of zero,
    returns no result at all on a negative batch size, however many texts
    it is given, and returns the empty list on no text. *)
Theorem X6_analyze_batch_degenerate_sizes (self : RobertaAnalyzer.t)
    (texts : list string) (batch_size : Z) :
  (batch_size = 0%Z ->
   RobertaAnalyzer.analyze_batch self texts batch_size
   = Raise (Exn "ValueError" "range() arg 3 must not be zero"))
  /\ ((batch_size < 0)%Z ->
      RobertaAnalyzer.analyze_batch self texts batch_size = Ok [])
  /\ (batch_size <> 0%Z ->
      RobertaAnalyzer.analyze_batch self [] batch_size = Ok []).
Proof.
  unfold RobertaAnalyzer.analyze_batch, RobertaAnalyzer.range. repeat split.
  - intros ->. reflexivity.
  - intros Hneg.
    destruct (Z.eqb_spec batch_size 0) as [? | _]; [lia |].
    destruct (Z.ltb_spec batch_size 0) as [_ | ?]; [reflexivity | lia].
  - intros Hnz.
    destruct (Z.eqb_spec batch_size 0) as [? | _]; [congruence |].
    destruct (Z.ltb_spec batch_size 0); reflexivity.
Qed.

(** X7: [_ensemble_label] raises [KeyError] exactly when the row has no
    [vader_label], whatever the contextual fields are; otherwise it returns
    the row's [vader_label] or the row's [roberta_label], nothing else. *)
Theorem X7_ensemble_label_total_on_vader_label (self : SentimentPipeline.t) (r : row) :
  (r !! "vader_label" = None ->
   SentimentPipeline._ensemble_label self r = Raise (Exn "KeyError" "vader_label"))
  /\ (forall vl : pyval,
         r !! "vader_label" = Some vl ->
         exists v, SentimentPipeline._ensemble_label self r = Ok v
                   /\ (v = vl \/ r !! "roberta_label" = Some v)).
Proof.
  unfold SentimentPipeline._ensemble_label, getitem, contains. split.
  - intros Hv. rewrite Hv.
    destruct (_ && _ && _); reflexivity.
  - intros vl Hv. rewrite Hv.
    destruct (SentimentPipeline.has_roberta self); simpl; [| eauto].
    destruct (r !! "roberta_label") as [rl |] eqn:Hr.
    + rewrite bool_decide_eq_true_2 by eauto. simpl.
      destruct (notna (get r "roberta_label" PyNone)); [| eauto].
      destruct (py_eq vl rl); eauto.
    + rewrite bool_decide_eq_false_2 by (intros [? ?]; discriminate). simpl. eauto.
Qed.

(** X8: [_ensemble_score] raises [KeyError] when the row has no
    [vader_compound], and [TypeError] when that field is null or a
    string; it tests [roberta_positive] alone, so a row with a
    [roberta_positive] that is not null and without [roberta_negative]
    raises [KeyError] instead of falling back to the lexical score. *)
Theorem X8_ensemble_score_errors (self : SentimentPipeline.t) (r : row) :
  (r !! "vader_compound" = None ->
   SentimentPipeline._ensemble_score self r = Raise (Exn "KeyError" "vader_compound"))
  /\ (forall v : pyval,
         r !! "vader_compound" = Some v -> (forall f, v <> PyFloat f) ->
         exists msg, SentimentPipeline._ensemble_score self r
                     = Raise (Exn "TypeError" msg))
  /\ (forall (c : float) (v : pyval),
         r !! "vader_compound" = Some (PyFloat c) ->
         SentimentPipeline.has_roberta self = true ->
         r !! "roberta_positive" = Some v -> notna v = true ->
         r !! "roberta_negative" = None ->
         SentimentPipeline._ensemble_score self r
         = Raise (Exn "KeyError" "roberta_negative")).
Proof.
  unfold SentimentPipeline._ensemble_score, getitem. repeat split.
  - intros ->. reflexivity.
  - intros v -> Hv. destruct v as [| f | s]; simpl; eauto.
    exfalso. exact (Hv f eq_refl).
  - intros c v -> Hrob Hp Hv ->. cbn [as_float].
    rewrite (present_guard self r "roberta_positive" v Hrob Hp Hv), Hp. reflexivity.
Qed.

(** ** Running the pipeline with the contextual scorer *)

Lemma analyze_batch_scores (self : RobertaAnalyzer.t) (texts : list string)
    (batch_size : Z) :
  (0 < batch_size)%Z ->
  RobertaAnalyzer.analyze_batch self texts batch_size
  = Ok (map (RobertaAnalyzer.result self)
          (batch_scores self (Z.to_nat batch_size) texts)).
Proof.
  intros Hpos. assert (Hsize : 0 < Z.to_nat batch_size) by lia.
  unfold RobertaAnalyzer.analyze_batch, RobertaAnalyzer.range.
  destruct (Z.eqb_spec batch_size 0) as [? | _]; [lia |].
  destruct (Z.ltb_spec batch_size 0) as [? | _]; [lia |].
  pose proof (range_from_chunks texts _ Hsize (length texts) 0 ltac:(lia)) as Hr.
  rewrite drop_0 in Hr. f_equal. unfold batch_scores, chunks. rewrite <- Hr.
  rewrite !map_map.
  generalize (RobertaAnalyzer.range_from (length texts) 0 (length texts)
                (Z.to_nat batch_size)).
  intros starts. induction starts as [| i starts IH]; [reflexivity |].
  cbn [map concat]. rewrite map_app, <- IH. reflexivity.
Qed.

Lemma batch_scores_length (self : RobertaAnalyzer.t) (size : nat) (texts : list string) :
  (forall batch,
      length (RobertaAnalyzer.forward_batch self batch) = length batch) ->
  0 < size ->
  length (batch_scores self size texts) = length texts.
Proof.
  intros Hrows Hsize. unfold batch_scores.
  rewrite <- (concat_chunks_go size Hsize (length texts) texts (le_n _)) at 2.
  unfold chunks. generalize (chunks_go (length texts) size texts).
  intros cs. induction cs as [| ch cs IH]; [reflexivity |].
  cbn [map concat]. rewrite !length_app, length_map, Hrows, IH. reflexivity.
Qed.

Lemma with_fields_roberta (ra : RobertaAnalyzer.t) (sc : RobertaAnalyzer.scores3)
    (r : row) :
  with_fields roberta_cols (RobertaAnalyzer.result ra sc) r
  = <["roberta_neutral" := PyFloat (RobertaAnalyzer.nth3 sc 1)]>
    (<["roberta_negative" := PyFloat (RobertaAnalyzer.nth3 sc 0)]>
    (<["roberta_positive" := PyFloat (RobertaAnalyzer.nth3 sc 2)]>
    (<["roberta_score" := PyFloat (RobertaAnalyzer.nth3 sc (RobertaAnalyzer.argmax sc))]>
    (<["roberta_label" :=
         PyStr (RobertaAnalyzer.id2label ra (RobertaAnalyzer.argmax sc))]> r)))).
Proof. reflexivity. Qed.

Section Contextual.

Import SentimentPipeline.

Variable float_repr : float -> string.
Variable va : VaderAnalyzer.t.
Variable ra : RobertaAnalyzer.t.

Hypothesis rows_per_text :
  forall batch, length (RobertaAnalyzer.forward_batch ra batch) = length batch.

Ltac run_step lem := erewrite bind_ok; [| apply lem].

Local Abbreviation compound_at := (compound_of float_repr va).
Local Abbreviation scored_row := (scored float_repr va ra).
Local Abbreviation label_at := (final_label_of ra).
Local Abbreviation score_at := (final_score_of float_repr va).

Lemma scored_lookup (x : row * RobertaAnalyzer.scores3) :
  scored_row x !! "vader_label"
    = Some (PyStr (VaderAnalyzer._compound_to_label (compound_at x.1)))
  /\ scored_row x !! "vader_compound" = Some (PyFloat (compound_at x.1))
  /\ scored_row x !! "roberta_label" = Some (label_at x)
  /\ scored_row x !! "roberta_positive" = Some (PyFloat (RobertaAnalyzer.nth3 x.2 2))
  /\ scored_row x !! "roberta_negative" = Some (PyFloat (RobertaAnalyzer.nth3 x.2 0)).
Proof.
  unfold scored, lexical_part, compound_of,
    final_label_of.
  rewrite with_fields_roberta, with_fields_vader.
  repeat split.
  - rewrite !lookup_insert_ne by discriminate. apply lookup_insert_eq.
  - rewrite !lookup_insert_ne by discriminate. apply lookup_insert_eq.
  - rewrite !lookup_insert_ne by discriminate. apply lookup_insert_eq.
  - rewrite !lookup_insert_ne by discriminate. apply lookup_insert_eq.
  - rewrite !lookup_insert_ne by discriminate. apply lookup_insert_eq.
Qed.

Lemma ensemble_label_scored (x : row * RobertaAnalyzer.scores3) :
  _ensemble_label (Make va (Some ra)) (scored_row x) = Ok (label_at x).
Proof.
  destruct (scored_lookup x) as (Hvl & _ & Hrl & _).
  unfold _ensemble_label.
  rewrite (present_guard (Make va (Some ra)) _ "roberta_label" _ eq_refl Hrl eq_refl).
  unfold getitem. rewrite Hvl, Hrl. unfold final_label_of. cbn [py_eq].
  destruct (String.eqb_spec
              (VaderAnalyzer._compound_to_label (compound_at x.1))
              (RobertaAnalyzer.id2label ra (RobertaAnalyzer.argmax x.2))) as [-> | _];
    reflexivity.
Qed.

Lemma ensemble_score_scored (x : row * RobertaAnalyzer.scores3) (v : pyval) :
  _ensemble_score (Make va (Some ra)) (<["final_label" := v]> (scored_row x))
  = Ok (score_at x).
Proof.
  destruct (scored_lookup x) as (_ & Hc & _ & Hp & Hn).
  unfold _ensemble_score, getitem, contains, get.
  rewrite !lookup_insert_ne by discriminate. rewrite Hc, Hp, Hn.
  cbn [as_float has_roberta roberta default notna andb].
  rewrite bool_decide_eq_true_2 by eauto. cbn [andb].
  unfold final_score_of. cbv zeta.
  change (notna (id (PyFloat ?p))) with (negb (PyFloat.is_nan p)).
  destruct (PyFloat.is_nan (RobertaAnalyzer.nth3 x.2 2)); reflexivity.
Qed.

(** A run with a contextual scorer that returns one row per text. *)
Lemma analyze_dataframe_contextual (df : nat) (show_progress : bool) (w : world)
    (rows : frame) :
  frames w !! df = Some rows ->
  let scores := batch_scores ra (Z.to_nat RobertaAnalyzer.default_batch_size)
                  (map (roberta_text float_repr) rows) in
  exists w',
    analyze_dataframe float_repr (Make va (Some ra)) df show_progress w
    = (Ok (fresh (dom (frames w))), w')
    /\ frames w' !! fresh (dom (frames w))
       = Some (map (fun x => <["final_score" := score_at x]>
                               (<["final_label" := label_at x]> (scored_row x)))
                   (zip rows scores)).
Proof.
  intros Hdf scores. destruct w as [m lg]. simpl in *.
  assert (Hlen : length scores = length rows).
  { unfold scores. rewrite (batch_scores_length ra _ _ rows_per_text)
      by (unfold RobertaAnalyzer.default_batch_size; lia).
    apply length_map. }
  unfold analyze_dataframe.
  erewrite bind_ok; cycle 1.
  { unfold df_copy. erewrite bind_ok; cycle 1.
    { unfold deref. simpl. rewrite Hdf. reflexivity. }
    unfold alloc. simpl. rewrite <- (map_id rows) at 1. reflexivity. }
  set (df' := fresh (dom m)). unfold enrich.
  run_step logger_run.
  erewrite bind_ok; cycle 1.
  { apply df_apply_run with (h := fun r => PyStr (clean_of float_repr r)).
    intros r. reflexivity. }
  run_step df_setitem_run.
  run_step logger_run.
  erewrite bind_ok; cycle 1.
  { apply df_getitem_run with (h := fun r => PyStr (clean_of float_repr r)).
    intros r. apply lookup_insert_eq. }
  erewrite bind_ok; cycle 1.
  { unfold lift. rewrite (traverse_map as_str _ (clean_of float_repr) rows) by reflexivity.
    reflexivity. }
  rewrite map_map.
  erewrite bind_ok; cycle 1.
  { apply df_attach_run with (cols := vader_cols). intros r. reflexivity. }
  cbn [roberta].
  erewrite bind_ok; cycle 1.
  { run_step logger_run.
    erewrite bind_ok; cycle 1.
    { apply df_getitem_run with (h := fun r => PyStr (clean_of float_repr r)).
      intros r. rewrite with_fields_vader.
      rewrite !lookup_insert_ne by discriminate. apply lookup_insert_eq. }
    erewrite bind_ok; cycle 1.
    { unfold lift.
      rewrite (traverse_map as_str _ (clean_of float_repr) rows) by reflexivity.
      reflexivity. }
    rewrite map_map.
    erewrite bind_ok; cycle 1.
    { unfold lift. rewrite analyze_batch_scores by reflexivity. reflexivity. }
    fold (roberta_text float_repr). fold scores.
    rewrite <- (fst_zip rows scores) at 1 by lia.
    rewrite <- (snd_zip rows scores) at 1 by lia.
    rewrite !map_map.
    apply df_attach_run with (cols := roberta_cols). intros x. reflexivity. }
  erewrite bind_ok; cycle 1.
  { apply df_apply_run with (h := label_at). exact ensemble_label_scored. }
  run_step df_setitem_run.
  erewrite bind_ok; cycle 1.
  { apply df_apply_run with (h := score_at). intros x. apply ensemble_score_scored. }
  run_step df_setitem_run.
  eexists. split; [reflexivity |]. apply lookup_insert_eq.
Qed.

(** X9: with a contextual scorer that returns one row of scores per
    text, a run on a frame with at least one record succeeds and keeps the
    number and order of the records; in every record the final label is
    the contextual label, whatever the lexical label is, and the final
    score is the blend of the two normalised scores, or the lexical one
    alone when the positive probability is NaN. *)
Theorem X9_contextual_run (df : nat) (show_progress : bool) (w : world) (rows : frame) :
  frames w !! df = Some rows -> rows <> [] ->
  exists df' w' out,
    analyze_dataframe float_repr (Make va (Some ra)) df show_progress w = (Ok df', w')
    /\ frames w' !! df' = Some out
    /\ length out = length rows
    /\ forall i (r : row),
         rows !! i = Some r ->
         exists (r' : row) (sc : RobertaAnalyzer.scores3),
           out !! i = Some r'
           /\ batch_scores ra (Z.to_nat RobertaAnalyzer.default_batch_size)
                (map (roberta_text float_repr) rows) !! i = Some sc
           /\ r' !! "roberta_label"
              = Some (PyStr (RobertaAnalyzer.id2label ra (RobertaAnalyzer.argmax sc)))
           /\ r' !! "final_label" = r' !! "roberta_label"
           /\ r' !! "vader_compound" = Some (PyFloat (compound_of float_repr va r))
           /\ r' !! "final_score" = Some (final_score_of float_repr va (r, sc)).
Proof.
  intros Hdf _.
  destruct (analyze_dataframe_contextual df show_progress w rows Hdf) as (w' & Hrun & Hout).
  cbv zeta in Hout.
  set (scores := batch_scores ra (Z.to_nat RobertaAnalyzer.default_batch_size)
                   (map (roberta_text float_repr) rows)) in *.
  assert (Hlen : length scores = length rows).
  { unfold scores. rewrite (batch_scores_length ra _ _ rows_per_text)
      by (unfold RobertaAnalyzer.default_batch_size; lia).
    apply length_map. }
  eexists _, _, _. split; [exact Hrun |]. split; [exact Hout |].
  split; [rewrite length_map, length_zip; lia |].
  intros i r Hi.
  destruct (lookup_lt_is_Some_2 scores i) as [sc Hsc].
  { rewrite Hlen. apply lookup_lt_Some in Hi. exact Hi. }
  exists (<["final_score" := score_at (r, sc)]>
            (<["final_label" := label_at (r, sc)]> (scored_row (r, sc)))), sc.
  split.
  { assert (Hz : zip rows scores !! i = Some (r, sc))
      by (apply lookup_zip_Some; split; assumption).
    rewrite list_lookup_fmap, Hz. reflexivity. }
  split; [exact Hsc |].
  destruct (scored_lookup (r, sc)) as (_ & Hc & Hrl & _).
  repeat split.
  - rewrite !lookup_insert_ne by discriminate. exact Hrl.
  - rewrite lookup_insert_ne by discriminate. rewrite lookup_insert_eq.
    rewrite !lookup_insert_ne by discriminate. symmetry. exact Hrl.
  - rewrite !lookup_insert_ne by discriminate. exact Hc.
  - apply lookup_insert_eq.
Qed.

End Contextual.

(** ** Running the lexical pipeline again *)

Section Rerun.

Import SentimentPipeline.

Variable float_repr : float -> string.
Variable va : VaderAnalyzer.t.

Lemma clean_of_lexical_row (r : row) :
  clean_of float_repr (lexical_row float_repr va r) = clean_of float_repr r.
Proof.
  unfold clean_of, get, lexical_row.
  rewrite !lookup_insert_ne by discriminate. reflexivity.
Qed.

(** The derived fields depend on [text] and [platform] alone, so deriving
    them a second time changes nothing. *)
Lemma lexical_row_idem (r : row) :
  lexical_row float_repr va (lexical_row float_repr va r) = lexical_row float_repr va r.
Proof.
  pose proof (clean_of_lexical_row r) as Hclean.
  set (m := lexical_row float_repr va r) in *.
  unfold lexical_row at 1. rewrite Hclean.
  assert (H : forall (k : string) (v : pyval), m !! k = Some v -> <[k := v]> m = m)
    by (intros k v Hk; apply insert_id, Hk).
  cbv zeta.
  rewrite (H "clean_text")
    by (unfold m, lexical_row; rewrite !lookup_insert_ne by discriminate;
        apply lookup_insert_eq).
  rewrite (H "vader_compound")
    by (unfold m, lexical_row; rewrite !lookup_insert_ne by discriminate;
        apply lookup_insert_eq).
  rewrite (H "vader_positive")
    by (unfold m, lexical_row; rewrite !lookup_insert_ne by discriminate;
        apply lookup_insert_eq).
  rewrite (H "vader_negative")
    by (unfold m, lexical_row; rewrite !lookup_insert_ne by discriminate;
        apply lookup_insert_eq).
  rewrite (H "vader_neutral")
    by (unfold m, lexical_row; rewrite !lookup_insert_ne by discriminate;
        apply lookup_insert_eq).
  rewrite (H "vader_label")
    by (unfold m, lexical_row; rewrite !lookup_insert_ne by discriminate;
        apply lookup_insert_eq).
  rewrite (H "final_label")
    by (unfold m, lexical_row; rewrite !lookup_insert_ne by discriminate;
        apply lookup_insert_eq).
  apply H. unfold m, lexical_row. apply lookup_insert_eq.
Qed.

(** X10: in lexical-only mode, running [analyze_dataframe] on the frame a
    first run returned gives a frame with the same rows: the pipeline is
    idempotent on its own output. *)
Theorem X10_lexical_rerun_is_stable (df : nat) (show_progress : bool) (w : world)
    (rows : frame) :
  frames w !! df = Some rows -> rows <> [] ->
  exists df1 w1 out,
    analyze_dataframe float_repr (Make va None) df show_progress w = (Ok df1, w1)
    /\ frames w1 !! df1 = Some out
    /\ exists df2 w2,
         analyze_dataframe float_repr (Make va None) df1 show_progress w1 = (Ok df2, w2)
         /\ df2 <> df1
         /\ frames w2 !! df2 = Some out.
Proof.
  intros Hdf _.
  pose proof (analyze_dataframe_lexical float_repr va df show_progress w rows Hdf) as H1.
  eexists _, _, _. split; [exact H1 |].
  assert (Hout : forall m : gmap nat frame,
            <[fresh (dom (frames w)) := map (lexical_row float_repr va) rows]> m
              !! fresh (dom (frames w))
            = Some (map (lexical_row float_repr va) rows))
    by (intros m; apply lookup_insert_eq).
  split; [apply Hout |].
  eexists _, _. split.
  - apply analyze_dataframe_lexical. cbn [frames]. apply Hout.
  - cbn [frames]. split.
    + intros Heq.
      pose proof (is_fresh (dom (<[fresh (dom (frames w)) :=
                     map (lexical_row float_repr va) rows]> (frames w)))) as Hfr.
      rewrite Heq in Hfr. apply Hfr. apply elem_of_dom. rewrite Hout. eauto.
    + rewrite lookup_insert_eq. f_equal. rewrite map_map.
      apply map_ext. exact lexical_row_idem.
Qed.

End Rerun.

(** ** The word cloud *)

Section WordCloud.

Import WordCloudHelper.

Variable image : Type.
Variable wordcloud_generate : Z -> string -> string -> outcome image.

Lemma join_blank (ts : list text) :
  forallb is_space (TextPreprocessor.join (to_text " ") ts)
  = forallb (forallb is_space) ts.
Proof.
  induction ts as [| t ts IH]; [reflexivity |].
  destruct ts as [| t' ts].
  - simpl. rewrite andb_true_r. reflexivity.
  - change (TextPreprocessor.join (to_text " ") (t :: t' :: ts))
      with (t ++ " "%char :: TextPreprocessor.join (to_text " ") (t' :: ts)).
    rewrite forallb_app. cbn [forallb]. rewrite IH.
    change (is_space " ") with true. reflexivity.
Qed.

Lemma strings_blank (texts : list pyval) :
  forallb (forallb is_space) (strings texts) = forallb is_blank texts.
Proof.
  induction texts as [| v texts IH]; [reflexivity |].
  destruct v as [| f | s]; simpl; rewrite IH; reflexivity.
Qed.

(** X11: [generate_wordcloud] ignores the entries that are not strings;
    when no string has a character that is not whitespace it returns the
    "No text data available" figure without building a word cloud, and
    otherwise it builds the word cloud of the strings joined by spaces and
    passes on what that raises. *)
Theorem X11_wordcloud_placeholder (texts : list pyval) (title : string) (max_words : Z)
    (colormap : string) :
  (forallb is_blank texts = true ->
   generate_wordcloud image wordcloud_generate texts title max_words colormap
   = Ok (Message image "No text data available"))
  /\ (forallb is_blank texts = false ->
      generate_wordcloud image wordcloud_generate texts title max_words colormap
      = match wordcloud_generate max_words colormap
                (of_text (TextPreprocessor.join (to_text " ") (strings texts))) with
        | Raise e => Raise e
        | Ok wc => Ok (Cloud image wc title)
        end).
Proof.
  unfold generate_wordcloud. cbv zeta.
  rewrite <- strings_blank, <- join_blank.
  split; intros H.
  - apply strip_blank_iff in H. rewrite H. reflexivity.
  - destruct (strip _) as [| c u] eqn:Hs; [| reflexivity].
    apply strip_blank_iff in Hs. congruence.
Qed.

End WordCloud.

(** ** The retweet marker *)

(** X12: the retweet step changes a text only when the marker is at its
    very start; then it removes the marker and all the whitespace after
    it, and otherwise, for instance when whitespace comes before the
    marker, the text is left as it is. *)
Theorem X12_strip_rt_only_at_start (t : text) :
  TextPreprocessor.strip_rt t
  = if rt_marker t then skip is_space (drop 2 t) else t.
Proof.
  unfold TextPreprocessor.strip_rt, Re.sub_text.
  change (Re.sub_loop (S (length ?s)) ?i ?r ?tm ?b ?s) with (sub_at i r tm b s).
  pose proof (rt_match_at true t) as Hm. cbv iota in Hm. unfold rt_marker.
  destruct t as [| x [| y [| c t]]].
  - reflexivity.
  - rewrite (sub_at_skip _ _ _ _ _ _ Hm), rt_rest. reflexivity.
  - rewrite (sub_at_skip _ _ _ _ _ _ Hm), rt_rest. reflexivity.
  - destruct (Ascii.eqb "r" (lower x) && Ascii.eqb "t" (lower y) && is_space c) eqn:Hc.
    + rewrite (sub_at_match _ _ _ rt_consumes _ _ _ Hm), expand_lit, rt_rest.
      apply andb_prop in Hc as [_ Hsp]. cbn [Re.input drop skip]. rewrite Hsp.
      reflexivity.
    + rewrite (sub_at_skip _ _ _ _ _ _ Hm), rt_rest. reflexivity.
Qed.

(** ** The further properties at sample inputs *)

Lemma X2_reddit_markdown_removed_witness :
  TextPreprocessor.one_of "*_~`>{}[]" "b" = false.
Proof.
  destruct X2_reddit_markdown_removed as [_ H].
  apply (H (PyStr "**b**") "b"%char). left. reflexivity.
Defined.

Lemma X3_urls_are_removed_whole_witness :
  TextPreprocessor.strip_urls (to_text "www." ++ to_text "a.b" ++ to_text " x")
  = TextPreprocessor.strip_urls (to_text " x").
Proof.
  destruct X3_urls_are_removed_whole as (_ & H & _).
  apply H.
  - right. right. reflexivity.
  - discriminate.
  - reflexivity.
  - reflexivity.
Defined.

Lemma X6_analyze_batch_degenerate_sizes_witness :
  RobertaAnalyzer.analyze_batch sample_roberta ["bad"; "good"] (-5) = Ok [].
Proof.
  destruct (X6_analyze_batch_degenerate_sizes sample_roberta ["bad"; "good"] (-5))
    as (_ & H & _).
  apply H. reflexivity.
Defined.

Lemma X7_ensemble_label_total_on_vader_label_witness :
  SentimentPipeline._ensemble_label
    (SentimentPipeline.Make sample_vader (Some sample_roberta))
    {[ "roberta_label" := PyStr "positive" ]}
  = Raise (Exn "KeyError" "vader_label").
Proof.
  destruct (X7_ensemble_label_total_on_vader_label
              (SentimentPipeline.Make sample_vader (Some sample_roberta))
              {[ "roberta_label" := PyStr "positive" ]}) as [H _].
  apply H. reflexivity.
Defined.

Lemma X8_ensemble_score_errors_witness :
  SentimentPipeline._ensemble_score
    (SentimentPipeline.Make sample_vader (Some sample_roberta))
    {[ "vader_compound" := PyFloat 0.5%float; "roberta_positive" := PyFloat 0.25%float ]}
  = Raise (Exn "KeyError" "roberta_negative").
Proof.
  destruct (X8_ensemble_score_errors
              (SentimentPipeline.Make sample_vader (Some sample_roberta))
              {[ "vader_compound" := PyFloat 0.5%float;
                 "roberta_positive" := PyFloat 0.25%float ]}) as (_ & _ & H).
  apply (H 0.5%float (PyFloat 0.25%float)); reflexivity.
Defined.

Lemma X9_contextual_run_witness :
  exists df' w' out,
    SentimentPipeline.analyze_dataframe sample_repr
      (SentimentPipeline.Make sample_vader (Some sample_roberta)) 0 true sample_world
    = (Ok df', w')
    /\ frames w' !! df' = Some out
    /\ length out = 2.
Proof.
  destruct (X9_contextual_run sample_repr sample_vader sample_roberta
              sample_rows_per_text 0 true sample_world _ eq_refl)
    as (df' & w' & out & Hrun & Hout & Hlen & _).
  - discriminate.
  - exists df', w', out. split; [exact Hrun | split; [exact Hout | exact Hlen]].
Defined.

Lemma X10_lexical_rerun_is_stable_witness :
  exists df1 w1 out,
    SentimentPipeline.analyze_dataframe sample_repr
      (SentimentPipeline.Make sample_vader None) 0 false sample_world
    = (Ok df1, w1)
    /\ frames w1 !! df1 = Some out
    /\ exists df2 w2,
         SentimentPipeline.analyze_dataframe sample_repr
           (SentimentPipeline.Make sample_vader None) df1 false w1
         = (Ok df2, w2)
         /\ df2 <> df1
         /\ frames w2 !! df2 = Some out.
Proof.
  apply (X10_lexical_rerun_is_stable sample_repr sample_vader 0 false sample_world _ eq_refl).
  discriminate.
Defined.

Lemma X11_wordcloud_placeholder_witness :
  WordCloudHelper.generate_wordcloud unit (fun _ _ _ => Ok tt)
    [PyNone; PyStr "  "; PyFloat nan] "Positive Words" 100 "Greens"
  = Ok (WordCloudHelper.Message unit "No text data available").
Proof.
  destruct (X11_wordcloud_placeholder unit (fun _ _ _ => Ok tt)
              [PyNone; PyStr "  "; PyFloat nan] "Positive Words" 100 "Greens") as [H _].
  apply H. reflexivity.
Defined.
